(** * Stepping Stones: the game page, its timers and its leaderboard

    A shallow embedding of the client logic of the Stepping Stones quiz game
    (React components [GamePage], [Timer], [Leaderboard] and the
    [useWebSocket] hook), with the properties of scoring, dice, ranking,
    winners, lobby start, timers and the facilitator's grading queue.

    JavaScript numbers that the code uses as integers are [Z]; a property
    that may be [undefined] or [null] is an [option]; React state is an
    explicit record and every handler is a function on it. *)

From Stdlib Require Import ZArith QArith Qround Lia Sorted.
From stdpp Require Import base option list strings gmap pretty.

Local Open Scope string_scope.
Local Open Scope Z_scope.

(** ** Data model *)

(** A team object as the API and the [leaderboard_update] event carry it.
    [score] and [position] may be missing; [rest] holds every property the
    client never reads by name. *)
Record team := Team {
  id : Z;
  team_name : string;
  score : option Z;
  position : option Z;
  rest : gmap string string
}.

(** [team.score || 0] *)
Definition score0 (t : team) : Z := default 0 (score t).

(** An entry of the facilitator's grading queue
    (payload of [answer_submitted_details]). *)
Record answer := Answer {
  answer_id : Z;
  ans_team_name : string;
  submitted_answer : string;
  correct_answer : option string;
  auto_graded : bool;
  auto_is_correct : bool;
  auto_points : Z
}.


(** ** Scoring (GamePage grading buttons, QuestionDisplay points badge) *)

Module Scoring.

(** [difficulty === 'Easy' || difficulty === 'Medium' ? 2 : 3] *)
Definition points (difficulty : string) : Z :=
  if String.eqb difficulty "Easy" || String.eqb difficulty "Medium" then 2 else 3.








End Scoring.

(** ** Dice (GamePage.handleRollDice) *)

Module Dice.


(** The same with the product rounded to a double by [rnd]. *)
Definition roll_of_rounded (rnd : Q → Q) (u : Q) : Z :=
  Qfloor (rnd (u * 6)%Q) + 1.

(** The largest double below 1. *)
Definition max_draw : Q := (1 - (1 # 9007199254740992))%Q.


(** The [data] of a [dice_rolled] event. *)
Record dice_rolled := DiceRolled {
  dr_team_id : option Z;
  dr_team_name : string;
  roll : Z;
  dr_difficulty_range : string
}.


(** [handleDiceRolled], run by every client that receives the event: the face
    shown once the animation stops, [setDiceResult(data.roll)]. *)
Definition handleDiceRolled (data : dice_rolled) : Z := roll data.



End Dice.

(** ** Leaderboard (Leaderboard.jsx) *)

Module Leaderboard.

(** One step of a stable descending sort: [t] goes in front of the first team
    that does not have a strictly higher score. *)
Fixpoint insert_desc (t : team) (l : list team) : list team :=
  match l with
  | [] => [t]
  | u :: l' => if score0 t <? score0 u then u :: insert_desc t l' else t :: l
  end.

(** [[...teams].sort((a, b) => (b.score || 0) - (a.score || 0))]:
    [Array.prototype.sort] is stable and the comparator is a total preorder
    on scores, so the outcome is the stable descending arrangement. *)
Definition sort_desc (teams : list team) : list team :=
  foldr insert_desc [] teams.

(** [sortedTeams[i]?.score || 0] *)
Definition score_at (sortedTeams : list team) (i : nat) : Z :=
  match sortedTeams !! i with
  | Some t => score0 t
  | None => 0
  end.

(** The [for] loop of [getTeamRank], from counter [i] with [n] iterations
    left: the rank it returns, if it returns. *)
Fixpoint first_with_score (sortedTeams : list team) (currentScore : Z) (i n : nat)
  : option nat :=
  match n with
  | O => None
  | S n' =>
      if score_at sortedTeams i =? currentScore then Some (i + 1)%nat
      else first_with_score sortedTeams currentScore (S i) n'
  end.

Definition getTeamRank (sortedTeams : list team) (index : nat) : nat :=
  if (index =? 0)%nat then 1%nat
  else
    let currentScore := score_at sortedTeams index in
    let prevScore := score_at sortedTeams (index - 1) in
    if currentScore =? prevScore then
      match first_with_score sortedTeams currentScore 0 index with
      | Some r => r
      | None => (index + 1)%nat
      end
    else (index + 1)%nat.

(** The rows the component renders: every team of the sorted list with the
    rank shown next to it. *)
Definition rows (teams : list team) : list (nat * team) :=
  let sortedTeams := sort_desc teams in
  imap (λ index t, (getTeamRank sortedTeams index, t)) sortedTeams.

(** Number of teams with a score strictly above [c]. *)
Definition higher_than (c : Z) (teams : list team) : nat :=
  length (List.filter (λ t, c <? score0 t) teams).

(** [b] does not outscore [a]. *)
Definition not_above (a b : team) : Prop := score0 b ≤ score0 a.

(** Scores never increase along the list. *)
Definition descending (l : list team) : Prop :=
  ∀ i j : nat, (i ≤ j)%nat → (j < length l)%nat → score_at l j ≤ score_at l i.

End Leaderboard.

(** ** Shared game state (GameContext) and the WebSocket hook *)

Module Context.

Record t := Ctx {
  teams : list team;
  leaderboard : option (list team);
  gameStatus : string
}.

(** The events of [handleMessage] that write [teams], [leaderboard] or
    [gameStatus].  [TeamJoined r]: [r] is the answer of [gameAPI.getTeams]
    ([None] when the call fails, [Some None] when it has no [data]).  A
    payload list that is absent from the event is [None]. *)
Inductive message :=
  | TeamJoined (response : option (option (list team)))
  | GameStarted
  | LeaderboardUpdate (lb : option (list team))
  | GameEnded (winners : option (list team)) (lb : option (list team))
  | Other.

(** [data.leaderboard.find(l => l.id === team.id)] *)
Definition find_entry (lb : list team) (tm : team) : option team :=
  List.find (λ l, id l =? id tm) lb.

(** The function handed to [setTeams] on [leaderboard_update]. *)
Definition apply_leaderboard (lb : list team) (prevTeams : list team) : list team :=
  map (λ tm,
         match find_entry lb tm with
         | Some updatedTeam =>
             {| id := id tm; team_name := team_name tm;
                score := score updatedTeam; position := position updatedTeam;
                rest := rest tm |}
         | None => tm
         end) prevTeams.

Definition handleMessage (m : message) (c : t) : t :=
  match m with
  | TeamJoined (Some data) => Ctx (default [] data) (leaderboard c) (gameStatus c)
  | TeamJoined None => c
  | GameStarted => Ctx (teams c) (leaderboard c) "in_progress"
  | LeaderboardUpdate lb =>
      let c' := Ctx (teams c) lb (gameStatus c) in
      match lb with
      | Some (e :: es) => Ctx (apply_leaderboard (e :: es) (teams c')) lb (gameStatus c')
      | _ => c'
      end
  | GameEnded _ lb =>
      match lb with
      | Some l => Ctx (teams c) (Some l) "completed"
      | None => Ctx (teams c) (leaderboard c) "completed"
      end
  | Other => c
  end.

End Context.

(** ** Finishing the game (GamePage.handleFinishGame) *)

Module Finish.

(** The [data] of the [game_ended] event. *)
Record game_ended := GameEndedData {
  winners : list team;
  final_leaderboard : list team
}.

(** [leaderboard || teams]: an array, even an empty one, is truthy. *)
Definition teamsToSort (c : Context.t) : list team :=
  match Context.leaderboard c with
  | Some lb => lb
  | None => Context.teams c
  end.


Definition handleFinishGame (c : Context.t) : game_ended :=
  let sortedTeams := Leaderboard.sort_desc (teamsToSort c) in
  let highestScore := Leaderboard.score_at sortedTeams 0 in
  let gameWinners := List.filter (λ tm, score0 tm =? highestScore) sortedTeams in
  GameEndedData gameWinners sortedTeams.

End Finish.

(** ** Starting the game from the lobby (GamePage.handleStartGame) *)

Module Lobby.










End Lobby.

(** ** The game page (GamePage): dice timer, answer flags, grading queue *)

Module GamePage.

(** The part of the component state that the dice timer, the answer timer
    and the grading queue live in.  [diceTimerRef] tells whether
    [diceTimerRef.current] holds a running interval. *)
Record page := Page {
  diceTimer : option Z;
  diceTimerRef : bool;
  showDiceSkipModal : bool;
  answerSubmitted : bool;
  timeExpired : bool;
  submittedAnswers : list answer
}.

Definition initial : page := Page None false false false false [].

(** [role === 'facilitator'] *)
Definition is_facilitator (role : string) : bool := String.eqb role "facilitator".

Definition startDiceTimer (p : page) : page :=
  Page (Some 30) true (showDiceSkipModal p)
       (answerSubmitted p) (timeExpired p) (submittedAnswers p).

(** The callback [startDiceTimer] hands to [setInterval]; it runs once a
    second for as long as the interval is installed.  A [null] counter
    compares as 0. *)
Definition diceInterval (role : string) (p : page) : page :=
  if diceTimerRef p then
    let prev := default 0 (diceTimer p) in
    if prev <=? 1 then
      Page (Some 0) false
           (if is_facilitator role then true else showDiceSkipModal p)
           (answerSubmitted p) (timeExpired p) (submittedAnswers p)
    else
      Page (Some (prev - 1)) true (showDiceSkipModal p)
           (answerSubmitted p) (timeExpired p) (submittedAnswers p)
  else p.

Definition clearDiceTimer (p : page) : page :=
  Page None false false (answerSubmitted p) (timeExpired p) (submittedAnswers p).

Definition handleQuestionReadyForDice (p : page) : page := startDiceTimer p.

(** Only [clearDiceTimer] touches this part of the state; the rest of the
    handler drives the dice animation. *)
Definition handleDiceRolled (p : page) : page := clearDiceTimer p.

Definition handleQuestionServed (p : page) : page :=
  Page (diceTimer p) (diceTimerRef p) (showDiceSkipModal p) false false [].

Definition handleAnswerSubmitted (p : page) : page :=
  Page (diceTimer p) (diceTimerRef p) (showDiceSkipModal p)
       true (timeExpired p) (submittedAnswers p).

Definition handleAnswerSubmittedDetails (role : string) (answerData : answer) (p : page) : page :=
  if is_facilitator role then
    let prev := submittedAnswers p in
    let exists_ := existsb (λ a, answer_id a =? answer_id answerData) prev in
    Page (diceTimer p) (diceTimerRef p) (showDiceSkipModal p)
         (answerSubmitted p) (timeExpired p)
         (if exists_ then prev else prev ++ [answerData])
  else p.

Definition handleAnswerGraded (p : page) : page :=
  Page (diceTimer p) (diceTimerRef p) (showDiceSkipModal p) true (timeExpired p) [].

(** The 3.5 s timeout that [handleAnswerGraded] sets. *)
Definition gradedTimeout (p : page) : page :=
  Page (diceTimer p) (diceTimerRef p) (showDiceSkipModal p)
       false false (submittedAnswers p).

Definition handleTimeUp (p : page) : page :=
  Page (diceTimer p) (diceTimerRef p) (showDiceSkipModal p)
       true true (submittedAnswers p).

Definition handleSkipQuestion (p : page) : page :=
  clearDiceTimer
    (Page (diceTimer p) (diceTimerRef p) (showDiceSkipModal p) false false []).

Definition handleHopToNextQuestion (p : page) : page :=
  clearDiceTimer
    (Page (diceTimer p) (diceTimerRef p) (showDiceSkipModal p) false false []).

(** The "Wait More" button of the skip prompt. *)
Definition waitMore (p : page) : page :=
  Page (diceTimer p) (diceTimerRef p) false
       (answerSubmitted p) (timeExpired p) (submittedAnswers p).

(** [loadGameData]: the facilitator's queue is restored from a non-empty
    [pending_answers] of the game state. *)
Definition restorePending (role : string) (pending : list answer) (p : page) : page :=
  if is_facilitator role && negb (Nat.eqb (length pending) 0) then
    Page (diceTimer p) (diceTimerRef p) (showDiceSkipModal p)
         (answerSubmitted p) (timeExpired p) pending
  else p.

(** [handleSubmitAnswer]: the flag is raised before the request and lowered
    again when the request fails. *)
Definition handleSubmitAnswer (ok : bool) (p : page) : page :=
  Page (diceTimer p) (diceTimerRef p) (showDiceSkipModal p)
       ok (timeExpired p) (submittedAnswers p).

(** The condition under which the dice skip modal is rendered. *)
Definition dice_skip_modal_visible (role : string) (p : page) : bool :=
  showDiceSkipModal p && is_facilitator role.

Inductive event :=
  | QuestionReadyForDice
  | DiceIntervalFired
  | DiceRolledEvent
  | QuestionServed
  | AnswerSubmitted
  | AnswerSubmittedDetails (answerData : answer)
  | AnswerGraded
  | GradedTimeout
  | TimeUp
  | SkipQuestion
  | HopToNextQuestion
  | WaitMore
  | GameDataLoaded (pending : list answer)
  | SubmitAnswer (ok : bool).

Definition step (role : string) (p : page) (e : event) : page :=
  match e with
  | QuestionReadyForDice => handleQuestionReadyForDice p
  | DiceIntervalFired => diceInterval role p
  | DiceRolledEvent => handleDiceRolled p
  | QuestionServed => handleQuestionServed p
  | AnswerSubmitted => handleAnswerSubmitted p
  | AnswerSubmittedDetails a => handleAnswerSubmittedDetails role a p
  | AnswerGraded => handleAnswerGraded p
  | GradedTimeout => gradedTimeout p
  | TimeUp => handleTimeUp p
  | SkipQuestion => handleSkipQuestion p
  | HopToNextQuestion => handleHopToNextQuestion p
  | WaitMore => waitMore p
  | GameDataLoaded pending => restorePending role pending p
  | SubmitAnswer ok => handleSubmitAnswer ok p
  end.

Definition run (role : string) (p : page) (evs : list event) : page :=
  foldl (step role) p evs.

Definition distinct_ids (l : list answer) : Prop := NoDup (map answer_id l).

(** The queue is fed by [answer_submitted_details] only, or restored from
    lists that carry each answer once. *)
Definition restores_distinct (evs : list event) : Prop :=
  ∀ pending, GameDataLoaded pending ∈ evs → distinct_ids pending.

End GamePage.

(** ** The answer countdown (Timer component) *)

Module Timer.

Record t := T {
  timeLeft : Z;
  interval : bool
}.

Section Mounted.

(** The Timer is mounted under a parent with state [P]; the parent derives
    the [stopped] prop from its state and passes [onTimeUp], a handler that
    updates its state. *)
Context {P : Type} (stopped : P → bool) (onTimeUp : P → P).

(** The timer, the state of its parent, the [stopped] prop of the parent's
    last render (what the Timer's own renders and effects see until the
    parent renders again), and the number of calls of [onTimeUp] so far. *)
Record world := World {
  timer : t;
  parent : P;
  stopped_prop : bool;
  fired : nat
}.

(** The second effect, after the clean-up of its previous run
    ([clearInterval]): nothing when stopped; the handler when no time is
    left; a fresh interval otherwise. *)
Definition effect (w : world) : world :=
  if stopped_prop w then
    World (T (timeLeft (timer w)) false) (parent w) (stopped_prop w) (fired w)
  else if timeLeft (timer w) <=? 0 then
    World (T (timeLeft (timer w)) false) (onTimeUp (parent w)) (stopped_prop w)
          (S (fired w))
  else
    World (T (timeLeft (timer w)) true) (parent w) (stopped_prop w) (fired w).

(** The parent renders: the Timer gets the current [stopped] and a new
    [onTimeUp] closure, so its effect runs again. *)
Definition parent_render (w : world) : world :=
  effect (World (timer w) (parent w) (stopped (parent w)) (fired w)).

(** A call of the handler updates the parent's state, so the parent renders
    once the step in which the call happened is over. *)
Definition after_handler (before after : world) : world :=
  if (fired before =? fired after)%nat then after else parent_render after.

(** [useState(duration)] and the first run of the effects. *)
Definition mount (duration : Z) (p : P) : world :=
  let w := World (T duration false) p (stopped p) 0 in
  after_handler w (effect w).

(** The function that the interval callback gives to [setTimeLeft]. *)
Definition updater (w : world) : world :=
  if timeLeft (timer w) <=? 1 then
    World (T 0 false) (onTimeUp (parent w)) (stopped_prop w) (S (fired w))
  else
    World (T (timeLeft (timer w) - 1) (interval (timer w))) (parent w)
          (stopped_prop w) (fired w).

(** An interval callback whose updater React runs when it next renders the
    Timer, which is what React does with an updater it has queued ("during
    the next render, React will calculate the next state by applying all of
    the queued updaters").  Step by step, once [prev <= 1]:
    - the updater runs inside the Timer's render, clears the interval, calls
      [onTimeUp], whose state update is thereby issued on the parent while
      the Timer renders, and returns 0;
    - the Timer commits with [timeLeft = 0] and the props of the parent's
      last render, and its effect runs with them;
    - the parent renders with its updated state, and the effect runs once
      more with the new props. *)
Definition tick (w : world) : world :=
  if interval (timer w) then after_handler w (effect (updater w)) else w.

(** An interval callback whose updater React evaluates at the [setTimeLeft]
    call itself (the queue of the component being empty): the update to the
    parent is batched with the new [timeLeft], the parent and the Timer
    render together. *)
Definition tick_batched (w : world) : world :=
  if interval (timer w) then
    let w' := updater w in
    if (fired w =? fired w')%nat then effect w' else parent_render w'
  else w.

Inductive event := Tick | TickBatched | Render.

Definition step (w : world) (e : event) : world :=
  match e with
  | Tick => tick w
  | TickBatched => tick_batched w
  | Render => parent_render w
  end.

Definition run (w : world) (evs : list event) : world := foldl step w evs.

End Mounted.

(** Number of interval callbacks in a trace. *)
Definition ticks (evs : list event) : Z :=
  Z.of_nat (length (List.filter
                      (λ e, match e with Render => false | _ => true end) evs)).

(** The Timer as GamePage mounts it:
    [<Timer stopped={answerSubmitted} onTimeUp={handleTimeUp} />]. *)
Definition answer_timer_mount (duration : Z) (p : GamePage.page) : world :=
  mount GamePage.answerSubmitted GamePage.handleTimeUp duration p.

Definition answer_timer_step (w : world) (e : event) : world :=
  step GamePage.answerSubmitted GamePage.handleTimeUp w e.

Definition answer_timer_run (w : world) (evs : list event) : world :=
  run GamePage.answerSubmitted GamePage.handleTimeUp w evs.


End Timer.

(** ** The game context provider (GameContext) *)

Module GameProvider.

(** The state [GameProvider] starts from, and [resetGame] goes back to:
    no teams, an empty (not a missing) leaderboard, status [waiting]. *)
Definition initial : Context.t := Context.Ctx [] (Some []) "waiting".

Definition resetGame (c : Context.t) : Context.t := initial.

(** The events of the socket, handled one after the other. *)
Definition deliver (c : Context.t) (ms : list Context.message) : Context.t :=
  foldl (λ c m, Context.handleMessage m c) c ms.

(** The events that write [leaderboard]. *)
Definition writes_leaderboard (m : Context.message) : bool :=
  match m with
  | Context.LeaderboardUpdate _ | Context.GameEnded _ _ => true
  | _ => false
  end.

End GameProvider.

(** ** The end of the game on every client
       (GamePage.handleGameEnded, celebration overlay) *)

Module GameEnd.

(** The [data] of a received [game_ended] event: [winners] (new format),
    [winner] (old format), [leaderboard]. *)
Record data := Data {
  winners : option (list team);
  winner : option team;
  leaderboard : option (list team)
}.

(** What [handleFinishGame] gives to [sendMessage]. *)
Definition sent (r : Finish.game_ended) : data :=
  Data (Some (Finish.winners r)) None (Some (Finish.final_leaderboard r)).

(** [data.winners || (data.winner ? [data.winner] : [])], the list that
    [handleGameEnded] stores in [winners]. *)
Definition handleGameEnded (d : data) : list team :=
  match winners d with
  | Some ws => ws
  | None => match winner d with Some w => [w] | None => [] end
  end.

(** The same event as [useWebSocket] sees it. *)
Definition to_message (d : data) : Context.message :=
  Context.GameEnded (winners d) (leaderboard d).

(** [showCelebration && winners.length > 0], [showCelebration] being set by
    [handleFinishGame] and by [handleGameEnded]. *)
Definition celebration_rendered (ws : list team) : bool :=
  negb (Nat.eqb (length ws) 0).

(** [winners[0]?.score || 0], the "Final Score" of the overlay. *)
Definition final_score_shown (ws : list team) : Z :=
  match ws !! 0%nat with
  | Some w => score0 w
  | None => 0
  end.

(** [winners.length > 1]: the overlay announces a tie. *)
Definition announces_tie (ws : list team) : bool := (1 <? length ws)%nat.

End GameEnd.

(** ** Team tokens and medals (Leaderboard.jsx, GameBoard.jsx) *)

Module Tokens.

Definition animalTokens : list string :=
  ["🐻"; "🦊"; "🐰"; "🦌"; "🦉"; "🐿️"; "🦔"; "🐸"].

(** [teams.findIndex(t => t.id === team.id)]: -1 when there is none. *)
Fixpoint findIndex_from (i : Z) (l : list team) (tm : team) : Z :=
  match l with
  | [] => -1
  | u :: l' => if id u =? id tm then i else findIndex_from (i + 1) l' tm
  end.

Definition findIndex (l : list team) (tm : team) : Z := findIndex_from 0 l tm.

(** [animalTokens[i]] for an integer [i]: [undefined] below 0 and from the
    length on. *)
Definition token_at (i : Z) : option string :=
  if i <? 0 then None else animalTokens !! Z.to_nat i.

(** Leaderboard: [getTeamToken(team)], looked up in
    [teamsForTokenLookup]. *)
Definition leaderboard_token (teamsForTokenLookup : list team) (tm : team) : option string :=
  let originalIndex := findIndex teamsForTokenLookup tm in
  token_at (if 0 <=? originalIndex then Z.rem originalIndex 8 else 0).

(** GameBoard: [getTeamToken(teamIndex)]. *)
Definition board_token (teamIndex : Z) : option string :=
  token_at (Z.rem teamIndex 8).

(** The token on a tile of the board. *)
Definition tile_token (teams : list team) (tm : team) : option string :=
  board_token (findIndex teams tm).

(** The token in the legend under the board, for the team at [index]. *)
Definition legend_token (index : nat) : option string :=
  board_token (Z.of_nat index).

(** Leaderboard: [getMedalEmoji(rank)]. *)
Definition getMedalEmoji (rank : nat) : string :=
  match rank with
  | 1%nat => "🥇"
  | 2%nat => "🥈"
  | 3%nat => "🥉"
  | _ => "#" +:+ pretty rank
  end.

End Tokens.

(** ** The board (GameBoard.jsx) *)

Module GameBoard.

(** [Math.max(...teams.map(t => t.score || 0), 0)] *)
Definition maxScore (teams : list team) : Z :=
  foldr Z.max 0 (map score0 teams).

(** [Math.max(maxScore + 5, 20)] *)
Definition numTiles (teams : list team) : Z := Z.max (maxScore teams + 5) 20.

(** A tile of the path.  Its [y] and [rotation], a sine and a cosine of the
    index, only place the picture and are left out. *)
Record tile := Tile {
  index : Z;
  x : Z;
  isStart : bool;
  isFinish : bool;
  isMilestone : bool
}.

Definition generateCurvyPath (count : Z) : list tile :=
  map (λ i, Tile i (50 + i * 70) (i =? 0) (i =? count - 1)
                 ((0 <? i) && (Z.rem i 5 =? 0)))
      (seqZ 0 count).

Definition pathTiles (teams : list team) : list tile :=
  generateCurvyPath (numTiles teams).

(** [teams.filter(team => getTeamTilePosition(team) === tile.index)] *)
Definition teamsAtPosition (teams : list team) (t : tile) : list team :=
  List.filter (λ tm, score0 tm =? index t) teams.

End GameBoard.

(** ** Invariants of the dice timer *)

Module DiceTimer.

(** A counter that is shown lies between 0 and 30, and is at least 1 for as
    long as the interval runs. *)
Definition in_range (p : GamePage.page) : Prop :=
  match GamePage.diceTimer p with
  | Some n => 0 ≤ n ≤ 30 ∧ (GamePage.diceTimerRef p = true → 1 ≤ n)
  | None => GamePage.diceTimerRef p = false
  end.

(** A turn that timed out and on which the facilitator chose to wait. *)
Definition timed_out_and_waiting (role : string) : GamePage.page :=
  GamePage.waitMore
    (Nat.iter 30 (GamePage.diceInterval role)
       (GamePage.handleQuestionReadyForDice GamePage.initial)).

End DiceTimer.



(** ** The answer countdown and a submitted answer *)

Module AnswerTimer.

(** [answer_submitted] arrives (or the player's own submission raises the
    flag): the page sets [answerSubmitted] and renders, the Timer with it. *)
Definition submitted (w : Timer.world) : Timer.world :=
  Timer.parent_render GamePage.answerSubmitted GamePage.handleTimeUp
    (Timer.World (Timer.timer w) (GamePage.handleAnswerSubmitted (Timer.parent w))
                 (Timer.stopped_prop w) (Timer.fired w)).

(** Traces in which React evaluates every updater at the [setTimeLeft]
    call. *)
Definition all_batched (evs : list Timer.event) : Prop :=
  Timer.Tick ∉ evs.

End AnswerTimer.

(** ** JavaScript strings and numbers as the forms use them *)

Module JS.

(** A string typed by a user is its sequence of UTF-16 code units, so that
    [length] is [.length]. *)
Abbreviation jstring := (list N).

(** A string literal of the source, all of whose characters are ASCII. *)
Fixpoint lit (s : string) : jstring :=
  match s with
  | EmptyString => []
  | String a s' => Ascii.N_of_ascii a :: lit s'
  end.

(** The code units that [trim] strips: WhiteSpace and LineTerminator of
    ECMAScript. *)
Definition is_whitespace (c : N) : bool :=
  ((9 <=? c) && (c <=? 13) || (c =? 32) || (c =? 160) || (c =? 5760) ||
   (8192 <=? c) && (c <=? 8202) || (c =? 8232) || (c =? 8233) || (c =? 8239) ||
   (c =? 8287) || (c =? 12288) || (c =? 65279))%N.

Fixpoint trimStart (s : jstring) : jstring :=
  match s with
  | c :: s' => if is_whitespace c then trimStart s' else s
  | [] => []
  end.

Definition trimEnd (s : jstring) : jstring := rev (trimStart (rev s)).

Definition trim (s : jstring) : jstring := trimEnd (trimStart s).

(** [!s] for a string. *)
Definition is_empty (s : jstring) : bool :=
  match s with [] => true | _ => false end.

(** A number: an integer or [NaN] (what [parseInt] gives for an emptied
    input). *)
Inductive number := NaN | Num (z : Z).

Definition add (a b : number) : number :=
  match a, b with Num x, Num y => Num (x + y) | _, _ => NaN end.

Definition mul (a b : number) : number :=
  match a, b with Num x, Num y => Num (x * y) | _, _ => NaN end.

(** [a < b] and [a <= b]: false as soon as one side is [NaN]. *)
Definition lt (a b : number) : bool :=
  match a, b with Num x, Num y => x <? y | _, _ => false end.

Definition le (a b : number) : bool :=
  match a, b with Num x, Num y => x <=? y | _, _ => false end.

(** [a === b] on numbers. *)
Definition number_eq (a b : number) : bool :=
  match a, b with Num x, Num y => x =? y | _, _ => false end.

(** A value that is a number, [null] or [undefined]. *)
Inductive value := Undefined | Null | Int (z : Z).

(** [Number(v)] *)
Definition to_number (v : value) : number :=
  match v with Undefined => NaN | Null => Num 0 | Int z => Num z end.

(** [!!v] *)
Definition truthy (v : value) : bool :=
  match v with Int z => negb (z =? 0) | _ => false end.

End JS.

(** ** Registration and login (Login.jsx, component Login) *)

Module LoginForm.
Import JS.

(** [/[A-Z]/.test(pwd)] *)
Definition has_upper (pwd : jstring) : bool :=
  existsb (λ c, (65 <=? c) && (c <=? 90))%N pwd.

(** [/[0-9]/.test(pwd)] *)
Definition has_digit (pwd : jstring) : bool :=
  existsb (λ c, (48 <=? c) && (c <=? 57))%N pwd.

Definition validatePassword (pwd : jstring) : option string :=
  if (length pwd <? 8)%nat then Some "Password must be at least 8 characters"
  else if negb (has_upper pwd) then
    Some "Password must contain at least one uppercase letter"
  else if negb (has_digit pwd) then
    Some "Password must contain at least one number"
  else None.

(** What [handleSubmit] does next: an alert and nothing else, or the call of
    [register] or [login] with the fields as typed. *)
Inductive submitted :=
  | Alerted (message : string)
  | Register (username password : jstring)
  | LogIn (username password : jstring).

Definition handleSubmit (isRegister : bool) (username password : jstring) : submitted :=
  if isRegister then
    match validatePassword password with
    | Some passwordError => Alerted passwordError
    | None => Register username password
    end
  else LogIn username password.

(** The three ticks of the requirement list under the password field. *)
Definition requirements_ticked (password : jstring) : list bool :=
  [ (8 <=? length password)%nat; has_upper password; has_digit password ].

End LoginForm.

(** ** Submitting an answer (QuestionDisplay.handleSubmit under GamePage) *)

Module AnswerForm.
Import JS.

(** The fields of the current question that the form reads. *)
Record question := Question {
  question_type : string;
  team_id : value
}.

Record form := Form {
  selectedAnswer : jstring;
  textAnswer : jstring;
  submitted : bool
}.

(** [Number(currentQuestion.team_id) === Number(teamId)] *)
Definition own_turn (teamId : value) (q : question) : bool :=
  number_eq (to_number (team_id q)) (to_number teamId).

(** GamePage passes [handleSubmitAnswer] as [onSubmit] in this case, and
    [null] otherwise. *)
Definition onSubmit_given (role : string) (teamId : value) (q : question) : bool :=
  String.eqb role "player" && own_turn teamId q.

(** The [disabled] prop that GamePage passes. *)
Definition disabled (role : string) (teamId : value) (q : question) : bool :=
  String.eqb role "facilitator" || (String.eqb role "player" && negb (own_turn teamId q)).

(** The [disabled] attribute of the Submit Answer button. *)
Definition submit_button_disabled (q : question) (f : form) : bool :=
  (String.eqb (question_type q) "MCQ" && is_empty (selectedAnswer f)) ||
  (negb (String.eqb (question_type q) "MCQ") && is_empty (trim (textAnswer f))).

(** The letters an option button can put into [selectedAnswer]. *)
Definition option_letters : list jstring := [lit "A"; lit "B"; lit "C"; lit "D"].

Inductive handled :=
  | Ignored
  | AlertProvideAnswer
  | Passed (answer : jstring)
  | TypeError.

(** [handleSubmit]; [Passed answer] is [onSubmit(answer)] followed by
    [setSubmitted(true)], [TypeError] the call of a [null] [onSubmit]. *)
Definition handleSubmit (isDisabled hasOnSubmit : bool) (q : question) (f : form) : handled :=
  if isDisabled then Ignored
  else
    let answer := if String.eqb (question_type q) "MCQ"
                  then selectedAnswer f else textAnswer f in
    if is_empty (trim answer) then AlertProvideAnswer
    else if hasOnSubmit then Passed answer else TypeError.

(** The body that [handleSubmitAnswer] posts. *)
Record answer_request := AnswerRequest {
  req_team_id : value;
  submitted_answer : jstring
}.

(** [handleSubmitAnswer], called while a question is displayed: nothing is
    posted when [teamId] is falsy. *)
Definition handleSubmitAnswer (teamId : value) (answer : jstring) : option answer_request :=
  if truthy teamId then Some (AnswerRequest teamId answer) else None.

Inductive clicked :=
  | NothingHappens
  | Alert
  | Posted (r : answer_request)
  | ShownAsSubmittedButNotPosted
  | Crash.

(** A click on Submit Answer, through QuestionDisplay into GamePage. *)
Definition click_submit (role : string) (teamId : value) (q : question) (f : form) : clicked :=
  match handleSubmit (disabled role teamId q) (onSubmit_given role teamId q) q f with
  | Ignored => NothingHappens
  | AlertProvideAnswer => Alert
  | Passed answer =>
      match handleSubmitAnswer teamId answer with
      | Some r => Posted r
      | None => ShownAsSubmittedButNotPosted
      end
  | TypeError => Crash
  end.

End AnswerForm.

(** ** Joining a session (JoinGame.handleJoinGame) *)

Module JoinForm.
Import JS.

Record join_request := JoinRequest {
  room_code : jstring;
  team_name : jstring
}.

Inductive joined :=
  | Refused (message : string)
  | Requested (r : join_request).

Section WithUpperCase.

(** [String.prototype.toUpperCase], whose Unicode tables are not modelled. *)
Variable toUpperCase : jstring → jstring.

Definition handleJoinGame (roomCode teamName : jstring) : joined :=
  if is_empty (trim roomCode) then Refused "Please enter a room code"
  else if is_empty (trim teamName) then Refused "Please enter a team name"
  else if (length teamName <? 2)%nat || (50 <? length teamName)%nat then
    Refused "Team name must be between 2 and 50 characters"
  else Requested (JoinRequest (trim (toUpperCase roomCode)) (trim teamName)).

End WithUpperCase.

(** The name kept in [sessionStorage] and in the navigation state after a
    successful join: the field as typed. *)
Definition stored_team_name (teamName : jstring) : jstring := teamName.

End JoinForm.

(** ** The roll button of the waiting view (GamePage) *)

Module RollButton.
Import JS.

(** [stateTeamName || storedTeamName || ''], the [teamName] the page starts
    with after a join: both hold the name as [handleJoinGame] stored it. *)
Definition page_team_name (stored : jstring) : jstring := stored.

(** [role === 'player' && currentTurnTeam && teamName === currentTurnTeam]:
    the branch of the waiting view that holds the Roll Your Dice button;
    [currentTurnTeam] is the name announced by [question_ready_for_dice]. *)
Definition shown (role : string) (currentTurnTeam : option jstring) (teamName : jstring) : bool :=
  String.eqb role "player" &&
  match currentTurnTeam with
  | Some turn => negb (is_empty turn) && bool_decide (teamName = turn)
  | None => false
  end.

End RollButton.

(** ** Editing a question (QuestionModal.handleSubmit) *)

Module QuestionForm.
Import JS.

Record fields := Fields {
  questionText : jstring;
  questionType : string;
  difficulty : string;
  timeLimit : number;
  optionA : jstring;
  optionB : jstring;
  optionC : jstring;
  optionD : jstring;
  correctAnswer : jstring;
  modelAnswer : jstring
}.

(** The object given to [onSave]; [None] is [null]. *)
Record question_data := QuestionData {
  question_text : jstring;
  question_type : string;
  q_difficulty : string;
  time_limit : number;
  option_a : option jstring;
  option_b : option jstring;
  option_c : option jstring;
  option_d : option jstring;
  correct_answer : option jstring;
  model_answer : option jstring
}.

Inductive submitted :=
  | Alerted (message : string)
  | Saved (d : question_data).

(** [['A', 'B', 'C', 'D'].includes(correctAnswer)] *)
Definition is_option_letter (s : jstring) : bool :=
  bool_decide (s ∈ [lit "A"; lit "B"; lit "C"; lit "D"]).

Definition handleSubmit (f : fields) : submitted :=
  if is_empty (trim (questionText f)) || (length (questionText f) <? 5)%nat then
    Alerted "Question text must be at least 5 characters"
  else if le (timeLimit f) (Num 0) then
    Alerted "Time limit must be greater than 0"
  else
    let mcq := String.eqb (questionType f) "MCQ" in
    if mcq && (is_empty (trim (optionA f)) || is_empty (trim (optionB f)) ||
               is_empty (trim (optionC f)) || is_empty (trim (optionD f))) then
      Alerted "All 4 options are required for MCQ questions"
    else if mcq && (is_empty (correctAnswer f) || negb (is_option_letter (correctAnswer f))) then
      Alerted "Please select a correct answer (A, B, C, or D)"
    else
      Saved (QuestionData (questionText f) (questionType f) (difficulty f) (timeLimit f)
               (if mcq then Some (optionA f) else None)
               (if mcq then Some (optionB f) else None)
               (if mcq then Some (optionC f) else None)
               (if mcq then Some (optionD f) else None)
               (if mcq then Some (correctAnswer f) else None)
               (if negb mcq then Some (modelAnswer f) else None)).

End QuestionForm.

(** ** Configuring a quiz (CreateQuiz) *)

Module QuizForm.
Import JS.

(** The configuration fields; each number field holds what [parseInt] made
    of the input. *)
Record config := Config {
  quizName : jstring;
  numTeams : number;
  numRounds : number;
  easyCount : number;
  mediumCount : number;
  hardCount : number;
  insaneCount : number
}.

(** A question of the quiz, as far as the page reads it. *)
Record quiz_question := QuizQuestion {
  question_id : Z;
  q_difficulty : string
}.

Inductive saved :=
  | NameRequired
  | NameLength
  | NeedQuestions (totalRequired : number)
  | SaveRequested (c : config).

Definition handleSaveConfiguration (c : config) : saved :=
  if is_empty (trim (quizName c)) then NameRequired
  else if (length (quizName c) <? 3)%nat || (100 <? length (quizName c))%nat then NameLength
  else
    let totalRequired := mul (numTeams c) (numRounds c) in
    let totalQuestions :=
      add (add (add (easyCount c) (mediumCount c)) (hardCount c)) (insaneCount c) in
    if lt totalQuestions totalRequired then NeedQuestions totalRequired
    else SaveRequested c.

(** [questions.filter(q => q.difficulty === d).length] *)
Definition count_of (d : string) (questions : list quiz_question) : Z :=
  Z.of_nat (length (List.filter (λ q, String.eqb (q_difficulty q) d) questions)).

Inductive completed :=
  | CompleteNameRequired
  | Need (tier : string) (wanted : number) (have : Z)
  | Complete.

Definition handleCompleteQuiz (c : config) (questions : list quiz_question) : completed :=
  if is_empty (trim (quizName c)) then CompleteNameRequired
  else if lt (Num (count_of "Easy" questions)) (easyCount c) then
    Need "easy" (easyCount c) (count_of "Easy" questions)
  else if lt (Num (count_of "Medium" questions)) (mediumCount c) then
    Need "medium" (mediumCount c) (count_of "Medium" questions)
  else if lt (Num (count_of "Hard" questions)) (hardCount c) then
    Need "hard" (hardCount c) (count_of "Hard" questions)
  else if lt (Num (count_of "Insane" questions)) (insaneCount c) then
    Need "insane" (insaneCount c) (count_of "Insane" questions)
  else Complete.

End QuizForm.

(** ** The address of the socket (useWebSocket.getWebSocketUrl) *)

Module WebSocketUrl.
Import Stdlib.Strings.Ascii.

(** The rest of [s] after its first [n] characters. *)
Fixpoint skip (n : nat) (s : string) : string :=
  match n, s with
  | O, _ => s
  | S n', String _ s' => skip n' s'
  | S _, EmptyString => EmptyString
  end.

(** [s.replace(pattern, replacement)] for a string pattern and a
    replacement without [$]: the first occurrence only. *)
Fixpoint replace (pattern replacement s : string) : string :=
  if String.prefix pattern s then replacement +:+ skip (String.length pattern) s
  else match s with
       | EmptyString => EmptyString
       | String c s' => String c (replace pattern replacement s')
       end.

(** [wsUrl] and [apiUrl] are [import.meta.env.VITE_WS_URL] and
    [VITE_API_URL]; [None] is [undefined]. *)
Definition getWebSocketUrl (wsUrl apiUrl : option string) : string :=
  match wsUrl with
  | Some (String c u) => String c u
  | _ =>
      match apiUrl with
      | Some (String c a) =>
          replace "http://" "ws://"
            (replace "https://" "wss://" (replace "/api" "" (String c a)))
      | _ => "ws://localhost:8000"
      end
  end.

(** The number of slashes of the string. *)
Fixpoint slashes (s : string) : nat :=
  match s with
  | EmptyString => O
  | String c s' => ((if Ascii.eqb c "/"%char then 1 else 0) + slashes s')%nat
  end.

(** The string holds no slash. *)
Fixpoint slash_free (s : string) : bool :=
  match s with
  | EmptyString => true
  | String c s' => negb (Ascii.eqb c "/"%char) && slash_free s'
  end.

End WebSocketUrl.

(** ** The badge of a quiz card (Dashboard) *)

Module Dashboard.

(** A quiz of the list, as far as the card reads its numbers. *)
Record quiz := Quiz {
  num_teams : Z;
  num_rounds : Z;
  easy_questions_count : Z;
  medium_questions_count : Z;
  hard_questions_count : Z;
  insane_questions_count : Z
}.

Inductive badge := Pending | Ready.

Definition quiz_badge (q : quiz) : badge :=
  let totalQuestions :=
    easy_questions_count q + medium_questions_count q +
    hard_questions_count q + insane_questions_count q in
  let requiredQuestions := num_teams q * num_rounds q in
  if totalQuestions <? requiredQuestions then Pending else Ready.

(** The quiz holds the numbers of the configuration [c]. *)
Definition holds (c : QuizForm.config) (q : quiz) : Prop :=
  QuizForm.numTeams c = JS.Num (num_teams q) ∧
  QuizForm.numRounds c = JS.Num (num_rounds q) ∧
  QuizForm.easyCount c = JS.Num (easy_questions_count q) ∧
  QuizForm.mediumCount c = JS.Num (medium_questions_count q) ∧
  QuizForm.hardCount c = JS.Num (hard_questions_count q) ∧
  QuizForm.insaneCount c = JS.Num (insane_questions_count q).

End Dashboard.

(** * Properties *)

Section ScoringFacts.
Import Scoring.

Lemma points_tiers :
  points "Easy" = 2 ∧ points "Medium" = 2 ∧ points "Hard" = 3 ∧ points "Insane" = 3.
Proof. repeat split; reflexivity. Qed.


End ScoringFacts.

(** *** C1: what the grading buttons award *)

Section ScoringClaims.
Import Scoring.




End ScoringClaims.

(** *** C2, C3: the die *)

Section DiceClaims.
Import Dice.


(** Rounding the product does not take the roll out of range: it stays in
    1..6 for every monotone rounding that keeps 0 and stays below 6 on the
    largest possible product, as round-to-nearest on doubles does (it takes
    [6 - 6/2^53] to the double [6 - 1/2^50]). *)
Lemma roll_of_rounded_bounds (rnd : Q → Q) u :
  (∀ x y, (x <= y)%Q → (rnd x <= rnd y)%Q) →
  (rnd 0 == 0)%Q →
  (rnd (max_draw * 6)%Q < 6)%Q →
  (0 <= u)%Q → (u <= max_draw)%Q →
  1 ≤ roll_of_rounded rnd u ≤ 6.
Proof.
  intros Hmono H0 Hmax Hu0 Hu1. unfold roll_of_rounded.
  assert (Hlo : 0 ≤ Qfloor (rnd (u * 6)%Q)).
  { change 0 with (Qfloor 0). apply Qfloor_resp_le. rewrite <- H0.
    apply Hmono. apply Qmult_le_0_compat; [exact Hu0 | discriminate]. }
  assert (Hhi : Qfloor (rnd (u * 6)%Q) < 6).
  { rewrite Zlt_Qlt. apply Qle_lt_trans with (rnd (u * 6)%Q); [apply Qfloor_le |].
    apply Qle_lt_trans with (rnd (max_draw * 6)%Q); [| exact Hmax].
    apply Hmono. apply Qmult_le_compat_r; [exact Hu1 | discriminate]. }
  lia.
Qed.

Example roll_of_rounded_exact :
  1 ≤ roll_of_rounded (λ x, x) max_draw ≤ 6 ∧ roll_of_rounded (λ x, x) max_draw = 6.
Proof.
  split; [| reflexivity].
  apply roll_of_rounded_bounds.
  - auto.
  - reflexivity.
  - reflexivity.
  - discriminate.
  - apply Qle_refl.
Qed.






End DiceClaims.

(** *** C4: ranks on the leaderboard *)

Section LeaderboardFacts.
Import Leaderboard.

Lemma insert_desc_perm t l : insert_desc t l ≡ₚ t :: l.
Proof.
  induction l as [| u l IH]; simpl; [reflexivity |].
  destruct (score0 t <? score0 u); [| reflexivity].
  rewrite IH. apply Permutation_swap.
Qed.

Lemma sort_desc_perm teams : sort_desc teams ≡ₚ teams.
Proof.
  induction teams as [| t l IH]; simpl; [reflexivity |].
  rewrite insert_desc_perm. by rewrite IH.
Qed.

Lemma insert_desc_sorted t l :
  StronglySorted not_above l → StronglySorted not_above (insert_desc t l).
Proof.
  induction 1 as [| u l Hs IH Hu]; simpl.
  - repeat constructor.
  - destruct (Z.ltb_spec (score0 t) (score0 u)) as [Hlt | Hge].
    + constructor; [exact IH |].
      rewrite insert_desc_perm. constructor; [unfold not_above; lia | exact Hu].
    + constructor; [by constructor |].
      constructor; [exact Hge |].
      eapply Forall_impl; [exact Hu |]. unfold not_above. intros x Hx. lia.
Qed.

(** The sort is stable: teams with the same score keep the order in which
    they were given. *)
Lemma insert_desc_same_score c t l :
  List.filter (λ u, score0 u =? c) (insert_desc t l) =
  List.filter (λ u, score0 u =? c) (t :: l).
Proof.
  induction l as [| u l IH]; [reflexivity |].
  cbn [insert_desc]. destruct (Z.ltb_spec (score0 t) (score0 u)) as [Hlt | Hge];
    [| reflexivity].
  cbn [List.filter] in *. rewrite IH.
  destruct (Z.eqb_spec (score0 t) c), (Z.eqb_spec (score0 u) c); try reflexivity.
  lia.
Qed.

Lemma sort_desc_stable c teams :
  List.filter (λ u, score0 u =? c) (sort_desc teams) =
  List.filter (λ u, score0 u =? c) teams.
Proof.
  induction teams as [| t l IH]; [reflexivity |].
  cbn [sort_desc foldr]. rewrite insert_desc_same_score.
  cbn [List.filter]. fold (sort_desc l). by rewrite IH.
Qed.

Lemma sort_desc_sorted teams : StronglySorted not_above (sort_desc teams).
Proof.
  induction teams as [| t l IH]; simpl; [constructor |].
  by apply insert_desc_sorted.
Qed.

Lemma score_at_cons_S a l i : score_at (a :: l) (S i) = score_at l i.
Proof. reflexivity. Qed.

Lemma score_at_elem l i : (i < length l)%nat → ∃ t, t ∈ l ∧ l !! i = Some t ∧ score_at l i = score0 t.
Proof.
  intros Hi. destruct (lookup_lt_is_Some_2 l i Hi) as [t Ht].
  exists t. split; [by eapply list_elem_of_lookup_2 |].
  split; [exact Ht |]. unfold score_at. by rewrite Ht.
Qed.

Lemma sorted_descending l : StronglySorted not_above l → descending l.
Proof.
  induction 1 as [| a l Hs IH Ha]; intros i j Hij Hj; simpl in Hj; [lia |].
  destruct j as [| j].
  - assert (i = 0%nat) as -> by lia. lia.
  - destruct i as [| i].
    + destruct (score_at_elem l j) as (t & Ht & _ & Hsc); [lia |].
      rewrite score_at_cons_S, Hsc. simpl.
      rewrite Forall_forall in Ha. apply (Ha t Ht).
    + rewrite !score_at_cons_S. apply IH; lia.
Qed.

Lemma higher_than_cons c a l :
  higher_than c (a :: l) =
  ((if (c <? score0 a)%Z then 1 else 0) + higher_than c l)%nat.
Proof. unfold higher_than. simpl. by destruct (c <? score0 a). Qed.

Lemma higher_than_perm c l l' : l ≡ₚ l' → higher_than c l = higher_than c l'.
Proof.
  induction 1 as [| a l l' _ IH | a b l | l1 l2 l3 _ IH1 _ IH2].
  - reflexivity.
  - rewrite !higher_than_cons. lia.
  - rewrite !higher_than_cons. lia.
  - congruence.
Qed.

Lemma higher_than_mono c1 c2 l :
  c1 ≤ c2 → (higher_than c2 l ≤ higher_than c1 l)%nat.
Proof.
  intros Hc. induction l as [| a l IH]; [reflexivity |].
  rewrite !higher_than_cons.
  destruct (Z.ltb_spec c2 (score0 a)), (Z.ltb_spec c1 (score0 a)); lia.
Qed.

Lemma higher_than_strict c1 c2 l t :
  c1 < c2 → t ∈ l → score0 t = c2 → (higher_than c2 l < higher_than c1 l)%nat.
Proof.
  intros Hc Ht Hsc. induction Ht as [t l | t a l Ht IH].
  - rewrite !higher_than_cons.
    pose proof (higher_than_mono c1 c2 l ltac:(lia)).
    destruct (Z.ltb_spec c2 (score0 t)), (Z.ltb_spec c1 (score0 t)); lia.
  - rewrite !higher_than_cons. specialize (IH Hsc).
    destruct (Z.ltb_spec c2 (score0 a)), (Z.ltb_spec c1 (score0 a)); lia.
Qed.

(** In a list that starts with [k] scores above [c] and continues with
    scores at most [c], exactly [k] teams are above [c]. *)
Lemma higher_than_prefix l : ∀ c k,
  (k ≤ length l)%nat →
  (∀ i, (i < k)%nat → c < score_at l i) →
  (∀ i, (k ≤ i < length l)%nat → score_at l i ≤ c) →
  higher_than c l = k.
Proof.
  induction l as [| a l IH]; intros c k Hk Hlt Hge; simpl in Hk.
  - unfold higher_than. simpl. lia.
  - rewrite higher_than_cons. destruct k as [| k].
    + specialize (Hge 0%nat ltac:(simpl; lia)) as H0. change (score_at (a :: l) 0) with (score0 a) in H0.
      destruct (Z.ltb_spec c (score0 a)); [lia |].
      rewrite (IH c 0%nat); [reflexivity | lia | intros; lia |].
      intros i Hi. rewrite <- score_at_cons_S with (a := a). apply Hge. simpl. lia.
    + specialize (Hlt 0%nat ltac:(lia)) as H0. change (score_at (a :: l) 0) with (score0 a) in H0.
      destruct (Z.ltb_spec c (score0 a)); [| lia].
      rewrite (IH c k); [reflexivity | lia | |].
      * intros i Hi. rewrite <- score_at_cons_S with (a := a). apply Hlt. lia.
      * intros i Hi. rewrite <- score_at_cons_S with (a := a). apply Hge. simpl. lia.
Qed.

Lemma first_with_score_spec l c : ∀ n i,
  match first_with_score l c i n with
  | Some r => ∃ k, r = S k ∧ (i ≤ k < i + n)%nat ∧ score_at l k = c ∧
                   ∀ m, (i ≤ m < k)%nat → score_at l m ≠ c
  | None => ∀ m, (i ≤ m < i + n)%nat → score_at l m ≠ c
  end.
Proof.
  induction n as [| n IH]; intros i; simpl.
  - intros m Hm. lia.
  - destruct (Z.eqb_spec (score_at l i) c) as [Heq | Hne].
    + exists i. repeat split; [lia | lia | lia | exact Heq | intros m Hm; lia].
    + specialize (IH (S i)). destruct (first_with_score l c (S i) n) as [r |].
      * destruct IH as (k & -> & Hk & Hsc & Hfirst).
        exists k. repeat split; [lia | lia | exact Hsc |].
        intros m Hm. destruct (decide (m = i)) as [-> | Hmi]; [exact Hne |].
        apply Hfirst. lia.
      * intros m Hm. destruct (decide (m = i)) as [-> | Hmi]; [exact Hne |].
        apply IH. lia.
Qed.

(** On a descending list [getTeamRank] is one more than the number of teams
    with a strictly higher score. *)
Lemma getTeamRank_count l i :
  descending l → (i < length l)%nat →
  getTeamRank l i = S (higher_than (score_at l i) l).
Proof.
  intros Hd Hi. unfold getTeamRank.
  destruct (Nat.eqb_spec i 0) as [-> | Hi0].
  - rewrite (higher_than_prefix l (score_at l 0) 0%nat); [reflexivity | lia | intros; lia |].
    intros m Hm. apply Hd; lia.
  - simpl. destruct (Z.eqb_spec (score_at l i) (score_at l (i - 1))) as [Heq | Hne].
    + pose proof (first_with_score_spec l (score_at l i) i 0%nat) as Hscan.
      destruct (first_with_score l (score_at l i) 0 i) as [r |].
      * destruct Hscan as (k & -> & Hk & Hsc & Hfirst).
        rewrite (higher_than_prefix l (score_at l i) k); [reflexivity | lia | |].
        -- intros m Hm. specialize (Hfirst m ltac:(lia)).
           specialize (Hd m i ltac:(lia) Hi). lia.
        -- intros m Hm. rewrite <- Hsc. apply Hd; lia.
      * exfalso. apply (Hscan (i - 1)%nat); [lia | by symmetry].
    + rewrite (higher_than_prefix l (score_at l i) i); [lia | lia | |].
      * intros m Hm. pose proof (Hd m (i - 1)%nat ltac:(lia) ltac:(lia)).
        pose proof (Hd (i - 1)%nat i ltac:(lia) Hi). lia.
      * intros m Hm. apply Hd; lia.
Qed.

Lemma rows_lookup teams i r tm :
  rows teams !! i = Some (r, tm) →
  sort_desc teams !! i = Some tm ∧ r = getTeamRank (sort_desc teams) i.
Proof.
  unfold rows. rewrite list_lookup_imap.
  destruct (sort_desc teams !! i) as [u |]; simpl; [| discriminate].
  intros [= <- <-]. auto.
Qed.

Lemma rows_teams teams : (rows teams).*2 = sort_desc teams.
Proof.
  apply list_eq. intros i. unfold rows.
  rewrite list_lookup_fmap, list_lookup_imap.
  by destruct (sort_desc teams !! i).
Qed.

(** C4: the leaderboard lists the teams by descending score, the rank shown
    next to a team is 1 plus the number of teams with a strictly higher
    score, and for two rows [i ≤ j] the rank of [i] is at most the rank of
    [j], with equal ranks exactly for equal scores. *)
Theorem leaderboard_ranks teams i j ri ti rj tj :
  rows teams !! i = Some (ri, ti) →
  rows teams !! j = Some (rj, tj) →
  (i ≤ j)%nat →
  (rows teams).*2 ≡ₚ teams ∧
  score0 tj ≤ score0 ti ∧
  ri = S (higher_than (score0 ti) teams) ∧
  rj = S (higher_than (score0 tj) teams) ∧
  (ri ≤ rj)%nat ∧
  (ri = rj ↔ score0 ti = score0 tj).
Proof.
  intros Hi Hj Hij.
  apply rows_lookup in Hi as [Hti ->]. apply rows_lookup in Hj as [Htj ->].
  pose proof (sorted_descending _ (sort_desc_sorted teams)) as Hd.
  pose proof (lookup_lt_Some _ _ _ Hti) as Hli.
  pose proof (lookup_lt_Some _ _ _ Htj) as Hlj.
  assert (Hsi : score_at (sort_desc teams) i = score0 ti)
    by (unfold score_at; by rewrite Hti).
  assert (Hsj : score_at (sort_desc teams) j = score0 tj)
    by (unfold score_at; by rewrite Htj).
  assert (Hle : score0 tj ≤ score0 ti).
  { rewrite <- Hsi, <- Hsj. by apply Hd. }
  rewrite !getTeamRank_count, Hsi, Hsj by assumption.
  rewrite !(higher_than_perm _ _ _ (sort_desc_perm teams)).
  split; [rewrite rows_teams; apply sort_desc_perm |].
  split; [exact Hle |].
  split; [reflexivity |]. split; [reflexivity |].
  pose proof (higher_than_mono _ _ teams Hle) as Hmono.
  split; [lia |].
  split; [| intros ->; reflexivity].
  intros Heq. destruct (decide (score0 tj = score0 ti)) as [| Hne]; [done |].
  assert (Hin : ti ∈ teams).
  { rewrite <- (sort_desc_perm teams). by eapply list_elem_of_lookup_2. }
  pose proof (higher_than_strict (score0 tj) (score0 ti) teams ti
                ltac:(lia) Hin eq_refl).
  lia.
Qed.

Lemma leaderboard_ranks_witness :
  let red := Team 1 "Red" (Some 2) None ∅ in
  let blue := Team 2 "Blue" None None ∅ in
  let green := Team 3 "Green" (Some 0) None ∅ in
  rows [blue; red; green] = [(1, red); (2, blue); (2, green)]%nat ∧
  (2 = 2 ↔ score0 blue = score0 green)%nat.
Proof.
  intros red blue green.
  split; [reflexivity |].
  apply (leaderboard_ranks [blue; red; green] 1 2 2%nat blue 2%nat green);
    [reflexivity | reflexivity | lia].
Defined.

End LeaderboardFacts.

(** *** C5: winners at the end of the game *)

Section FinishClaims.
Import Leaderboard Finish.






End FinishClaims.

(** *** C6: starting the game *)

Section LobbyClaims.
Import Lobby.




End LobbyClaims.

(** *** C7: the dice-roll countdown *)

Section DiceTimerClaims.
Import GamePage.

Lemma is_facilitator_spec role : is_facilitator role = true ↔ role = "facilitator".
Proof. apply String.eqb_eq. Qed.

Lemma is_facilitator_false role : role ≠ "facilitator" → is_facilitator role = false.
Proof. intros H. by apply String.eqb_neq. Qed.

(** The state [k] seconds after [startDiceTimer], no roll having arrived:
    still counting before the 30th second ... *)
Lemma dice_countdown_running role p (k : nat) :
  (k < 30)%nat →
  Nat.iter k (diceInterval role) (startDiceTimer p) =
  Page (Some (30 - Z.of_nat k)) true (showDiceSkipModal p)
       (answerSubmitted p) (timeExpired p) (submittedAnswers p).
Proof.
  induction k as [| k IH]; intros Hk; [reflexivity |].
  rewrite Nat.iter_succ, IH by lia.
  unfold diceInterval. cbn -[Z.sub Z.of_nat Z.leb].
  destruct (Z.leb_spec (30 - Z.of_nat k) 1) as [Hle | Hgt]; [lia |].
  do 2 f_equal. lia.
Qed.

(** ... and stopped at 0 from the 30th second on. *)
Lemma dice_countdown_expired role p (k : nat) :
  (30 ≤ k)%nat →
  Nat.iter k (diceInterval role) (startDiceTimer p) =
  Page (Some 0) false (if is_facilitator role then true else showDiceSkipModal p)
       (answerSubmitted p) (timeExpired p) (submittedAnswers p).
Proof.
  induction 1 as [| k Hk IH].
  - rewrite Nat.iter_succ, dice_countdown_running by lia. reflexivity.
  - rewrite Nat.iter_succ, IH. reflexivity.
Qed.

(** No handler raises the skip flag on a client that is not the
    facilitator's. *)
Lemma player_never_flagged role evs : ∀ p,
  is_facilitator role = false →
  showDiceSkipModal p = false →
  showDiceSkipModal (run role p evs) = false.
Proof.
  induction evs as [| e evs IH]; intros p Hrole Hp; [exact Hp |].
  simpl. apply IH; [exact Hrole |].
  destruct e; simpl; try exact Hp; try reflexivity.
  - unfold diceInterval. destruct (diceTimerRef p); [| exact Hp].
    destruct (_ <=? 1); simpl; [| exact Hp]. by rewrite Hrole.
  - unfold handleAnswerSubmittedDetails. by rewrite Hrole.
  - unfold restorePending. rewrite Hrole. exact Hp.
Qed.

(** C7: the dice-roll countdown starts at 30 and goes down by 1 with every
    second that passes without a roll; once it is at 0 the skip prompt is on
    the facilitator's screen, and it is never on a player's: no sequence of
    events raises the flag there and no state renders the modal there. *)
Theorem dice_countdown role p (k : nat) :
  showDiceSkipModal p = false →
  let p' := Nat.iter k (diceInterval role) (handleQuestionReadyForDice p) in
  diceTimer (handleQuestionReadyForDice p) = Some 30 ∧
  diceTimer p' = Some (Z.max 0 (30 - Z.of_nat k)) ∧
  (dice_skip_modal_visible role p' = true ↔ (30 ≤ k)%nat ∧ role = "facilitator") ∧
  (role ≠ "facilitator" →
   ∀ evs q, showDiceSkipModal (run role initial evs) = false ∧
            dice_skip_modal_visible role q = false).
Proof.
  intros Hp p'. subst p'. unfold handleQuestionReadyForDice.
  split; [reflexivity |].
  assert (Hplayer : role ≠ "facilitator" →
    ∀ evs q, showDiceSkipModal (run role initial evs) = false ∧
             dice_skip_modal_visible role q = false).
  { intros Hrole evs q. apply is_facilitator_false in Hrole. split.
    - by apply player_never_flagged.
    - unfold dice_skip_modal_visible. rewrite Hrole. apply andb_false_r. }
  unfold dice_skip_modal_visible.
  destruct (Nat.lt_ge_cases k 30) as [Hlt | Hge].
  - rewrite dice_countdown_running by exact Hlt. cbn -[Z.sub Z.of_nat Z.max].
    split; [f_equal; lia |]. split; [| exact Hplayer].
    rewrite Hp. split; [discriminate | lia].
  - rewrite dice_countdown_expired by exact Hge. cbn -[Z.sub Z.of_nat Z.max].
    split; [f_equal; lia |]. split; [| exact Hplayer].
    rewrite Hp. destruct (is_facilitator role) eqn:Hr; simpl.
    + apply is_facilitator_spec in Hr. tauto.
    + split; [discriminate |]. intros [_ Hf].
      apply is_facilitator_spec in Hf. congruence.
Qed.

Lemma dice_countdown_witness :
  diceTimer (Nat.iter 12 (diceInterval "player") (handleQuestionReadyForDice initial)) = Some 18 ∧
  dice_skip_modal_visible "facilitator"
    (Nat.iter 30 (diceInterval "facilitator") (handleQuestionReadyForDice initial)) = true.
Proof.
  pose proof (dice_countdown "player" initial 12 eq_refl) as (_ & H1 & _).
  pose proof (dice_countdown "facilitator" initial 30 eq_refl) as (_ & _ & H2 & _).
  split; [exact H1 |].
  apply H2. split; [lia | reflexivity].
Defined.

End DiceTimerClaims.

(** *** C8: how often the answer countdown calls the time-up handler *)

Section TimerClaims.
Import GamePage Timer.

Lemma handleTimeUp_idempotent p : handleTimeUp (handleTimeUp p) = handleTimeUp p.
Proof. reflexivity. Qed.



Lemma ticks_cons e evs : ticks (e :: evs) = ticks [e] + ticks evs.
Proof. unfold ticks. simpl. destruct e; simpl; lia. Qed.



(** A Timer whose [stopped] prop is set holds no interval after its effect
    has run, and then neither a late callback nor a render calls the
    handler. *)
Lemma stopped_timer_silent evs : ∀ w,
  answerSubmitted (parent w) = true →
  fired (answer_timer_run (parent_render answerSubmitted handleTimeUp w) evs) = fired w.
Proof.
  assert (Hstep : ∀ w e, answerSubmitted (parent w) = true →
            interval (timer w) = false → stopped_prop w = true →
            answer_timer_step w e = w).
  { intros [[tl i] q sp f] e Hs Hi Hsp. simpl in *. subst i sp.
    destruct e; unfold answer_timer_step, step, tick, tick_batched, parent_render, effect;
      simpl; rewrite ?Hs; reflexivity. }
  assert (Hrun : ∀ evs w, answerSubmitted (parent w) = true →
            interval (timer w) = false → stopped_prop w = true →
            answer_timer_run w evs = w).
  { clear evs. induction evs as [| e evs IH]; intros w Hs Hi Hsp; [reflexivity |].
    change (answer_timer_run w (e :: evs))
      with (answer_timer_run (answer_timer_step w e) evs).
    rewrite Hstep by assumption. by apply IH. }
  intros w Hs. rewrite Hrun.
  - unfold parent_render, effect. simpl. by rewrite Hs.
  - unfold parent_render, effect. simpl. by rewrite Hs.
  - unfold parent_render, effect. simpl. by rewrite Hs.
  - unfold parent_render, effect. simpl. by rewrite Hs.
Qed.

(** With the updater evaluated at the [setTimeLeft] call the handler is
    called once. *)
Example answer_timer_batched_once :
  fired (answer_timer_run (answer_timer_mount 2 initial) [Tick; TickBatched]) = 1%nat.
Proof. reflexivity. Qed.

(** C8 fails on the code: on a two-second answer countdown that nobody stops,
    the second interval callback brings the countdown to zero and the
    time-up handler is called twice, once by the updater of the callback and
    once more by the effect, which runs for [timeLeft = 0] before the
    [stopped] prop raised by the first call has reached the Timer. *)
Theorem answer_timer_fires_twice :
  let w := answer_timer_run (answer_timer_mount 2 initial) [Tick; Tick] in
  fired (answer_timer_run (answer_timer_mount 2 initial) [Tick]) = 0%nat ∧
  fired w = 2%nat ∧
  timeLeft (timer w) = 0 ∧
  parent w = handleTimeUp initial.
Proof. repeat split; reflexivity. Qed.

End TimerClaims.

(** *** C9: what a [leaderboard_update] changes in the team list *)

Section LeaderboardUpdateClaims.
Import Context.

Lemma find_entry_Some lb tm e :
  find_entry lb tm = Some e → e ∈ lb ∧ id e = id tm.
Proof.
  intros H. apply find_some in H as [Hin Heq].
  split; [by apply list_elem_of_In | by apply Z.eqb_eq].
Qed.

Lemma find_entry_None lb tm :
  find_entry lb tm = None ↔ id tm ∉ map id lb.
Proof.
  unfold find_entry. split.
  - intros H Hin. apply list_elem_of_fmap in Hin as (e & He & Hin).
    apply list_elem_of_In in Hin.
    pose proof (find_none _ _ H e Hin) as Hne. simpl in Hne.
    apply Z.eqb_neq in Hne. congruence.
  - intros H. destruct (List.find _ lb) as [e |] eqn:Hf; [| reflexivity].
    apply find_entry_Some in Hf as [Hin Heq]. exfalso. apply H.
    apply list_elem_of_fmap. by exists e.
Qed.

Lemma apply_leaderboard_lookup lb prevTeams i tm :
  prevTeams !! i = Some tm →
  apply_leaderboard lb prevTeams !! i =
  Some (match find_entry lb tm with
        | Some e => Team (id tm) (team_name tm) (score e) (position e) (rest tm)
        | None => tm
        end).
Proof.
  intros H. unfold apply_leaderboard.
  change (map ?f ?l) with (f <$> l). by rewrite list_lookup_fmap, H.
Qed.

Lemma apply_leaderboard_nil prevTeams : prevTeams = apply_leaderboard [] prevTeams.
Proof.
  unfold apply_leaderboard. simpl. by rewrite map_id.
Qed.

(** C9: a [leaderboard_update] keeps the team list as long as it was and in
    the same order; a team whose id is not in the update's list stays exactly
    as it was; a team whose id is in the list takes the score and position of
    its first entry there and keeps its id, its name and every other
    property. *)
Theorem leaderboard_update_frame lb c i tm :
  teams c !! i = Some tm →
  let c' := handleMessage (LeaderboardUpdate lb) c in
  length (teams c') = length (teams c) ∧
  gameStatus c' = gameStatus c ∧
  ∃ tm', teams c' !! i = Some tm' ∧
         id tm' = id tm ∧ team_name tm' = team_name tm ∧ rest tm' = rest tm ∧
         (id tm ∉ map id (default [] lb) → tm' = tm) ∧
         (∀ e, find_entry (default [] lb) tm = Some e →
               score tm' = score e ∧ position tm' = position e).
Proof.
  intros Hi c'.
  assert (Hteams : teams c' = apply_leaderboard (default [] lb) (teams c)).
  { subst c'. destruct lb as [[| e0 es] |]; simpl; auto using apply_leaderboard_nil. }
  assert (Hstatus : gameStatus c' = gameStatus c).
  { subst c'. by destruct lb as [[| e0 es] |]. }
  rewrite Hteams, Hstatus. clear Hteams Hstatus c'.
  generalize (default [] lb). intros entries.
  split; [unfold apply_leaderboard; by rewrite length_map |].
  split; [reflexivity |].
  rewrite (apply_leaderboard_lookup _ _ _ _ Hi).
  destruct (find_entry entries tm) as [e |] eqn:Hf.
  - eexists. split; [reflexivity |]. cbn [id team_name rest score position].
    do 3 (split; [reflexivity |]). split.
    + intros Hnot. apply find_entry_None in Hnot. congruence.
    + by intros e' [= <-].
  - exists tm. split; [reflexivity |]. do 3 (split; [reflexivity |]).
    split; [auto |]. intros e' He'. discriminate He'.
Qed.

Lemma leaderboard_update_frame_witness :
  let red := Team 1 "Red" (Some 0) (Some 0) {[ "color" := "red" ]} in
  let blue := Team 2 "Blue" (Some 0) (Some 0) {[ "color" := "blue" ]} in
  let update := [Team 1 "" (Some 2) (Some 2) ∅] in
  ∃ tm', teams (handleMessage (LeaderboardUpdate (Some update))
                  (Ctx [red; blue] None "in_progress")) !! 1%nat = Some tm' ∧
         tm' = blue.
Proof.
  intros red blue update.
  destruct (leaderboard_update_frame (Some update)
              (Ctx [red; blue] None "in_progress") 1 blue eq_refl)
    as (_ & _ & tm' & Hl & _ & _ & _ & Hsame & _).
  exists tm'. split; [exact Hl |].
  apply Hsame. simpl. rewrite list_elem_of_singleton. discriminate.
Defined.

End LeaderboardUpdateClaims.

(** *** C10: the facilitator's grading queue *)

Section GradingQueueClaims.
Import GamePage.

Lemma existsb_answer_id a l :
  existsb (λ b, answer_id b =? answer_id a) l = false → answer_id a ∉ map answer_id l.
Proof.
  intros H Hin. apply list_elem_of_fmap in Hin as (b & Hb & Hin).
  assert (existsb (λ b, answer_id b =? answer_id a) l = true); [| congruence].
  apply existsb_exists. exists b. split; [by apply list_elem_of_In |].
  apply Z.eqb_eq. congruence.
Qed.

Lemma details_distinct role a p :
  distinct_ids (submittedAnswers p) →
  distinct_ids (submittedAnswers (handleAnswerSubmittedDetails role a p)).
Proof.
  unfold handleAnswerSubmittedDetails, distinct_ids. intros Hp.
  destruct (is_facilitator role); [| exact Hp]. simpl.
  destruct (existsb _ (submittedAnswers p)) eqn:Hex; [exact Hp |].
  rewrite map_app. simpl. apply NoDup_app. split; [exact Hp |].
  split; [| apply NoDup_singleton].
  intros x Hx Hx'. apply list_elem_of_singleton in Hx'. subst x.
  by apply existsb_answer_id in Hex.
Qed.

Lemma step_distinct role p e :
  distinct_ids (submittedAnswers p) →
  (∀ pending, e = GameDataLoaded pending → distinct_ids pending) →
  distinct_ids (submittedAnswers (step role p e)).
Proof.
  intros Hp He.
  destruct e; simpl; try exact Hp; try apply NoDup_nil_2.
  - unfold diceInterval. destruct (diceTimerRef p); [| exact Hp].
    by destruct (_ <=? 1).
  - by apply details_distinct.
  - unfold restorePending. destruct (_ && _); [| exact Hp]. simpl. by apply He.
Qed.

Lemma run_distinct role evs : ∀ p,
  distinct_ids (submittedAnswers p) →
  restores_distinct evs →
  distinct_ids (submittedAnswers (run role p evs)).
Proof.
  induction evs as [| e evs IH]; intros p Hp Hevs; [exact Hp |].
  simpl. apply IH.
  - apply step_distinct; [exact Hp |]. intros pending ->.
    apply Hevs. apply list_elem_of_here.
  - intros pending Hin. apply Hevs. by apply list_elem_of_further.
Qed.

Lemma run_player_empty role evs : ∀ p,
  is_facilitator role = false →
  submittedAnswers p = [] →
  submittedAnswers (run role p evs) = [].
Proof.
  induction evs as [| e evs IH]; intros p Hrole Hp; [exact Hp |].
  simpl. apply IH; [exact Hrole |].
  destruct e; simpl; try exact Hp; try reflexivity.
  - unfold diceInterval. destruct (diceTimerRef p); [| exact Hp].
    by destruct (_ <=? 1).
  - unfold handleAnswerSubmittedDetails. by rewrite Hrole.
  - unfold restorePending. by rewrite Hrole.
Qed.

(** C10: along every sequence of page events the grading queue never holds
    two entries with the same [answer_id] (the queue being fed by
    [answer_submitted_details] events, or restored from lists that carry each
    answer once), and on a client whose role is not facilitator it is empty
    whatever events arrive. *)
Theorem grading_queue_invariant role evs :
  (restores_distinct evs →
   distinct_ids (submittedAnswers (run role initial evs))) ∧
  (role ≠ "facilitator" → submittedAnswers (run role initial evs) = []).
Proof.
  split.
  - intros Hevs. apply run_distinct; [apply NoDup_nil_2 | exact Hevs].
  - intros Hrole. apply run_player_empty; [| reflexivity].
    by apply String.eqb_neq.
Qed.

Lemma grading_queue_invariant_witness :
  let a1 := Answer 11 "Red" "Paris" None false false 0 in
  let a2 := Answer 12 "Blue" "B" (Some "B") true true 2 in
  let evs := [AnswerSubmittedDetails a1; AnswerSubmittedDetails a2;
              AnswerSubmittedDetails a1] in
  submittedAnswers (run "facilitator" initial evs) = [a1; a2] ∧
  distinct_ids (submittedAnswers (run "facilitator" initial evs)) ∧
  submittedAnswers (run "player" initial evs) = [].
Proof.
  intros a1 a2 evs.
  split; [reflexivity |].
  split.
  - apply (proj1 (grading_queue_invariant "facilitator" evs)).
    intros pending Hin. subst evs.
    rewrite !elem_of_cons, elem_of_nil in Hin.
    destruct Hin as [Hin | [Hin | [Hin | []]]]; discriminate Hin.
  - apply (proj2 (grading_queue_invariant "player" evs)). discriminate.
Defined.

End GradingQueueClaims.

(** * Further properties of the client *)

(** ** Finishing and the end of the game *)

Section GameEndFacts.
Import Leaderboard Finish GameProvider GameEnd.

Lemma deliver_keeps_empty_leaderboard ms : ∀ c,
  Context.leaderboard c = Some [] →
  (∀ m, m ∈ ms → writes_leaderboard m = false) →
  Context.leaderboard (deliver c ms) = Some [].
Proof.
  induction ms as [| m ms IH]; intros c Hc Hms; [exact Hc |].
  simpl. apply IH.
  - specialize (Hms m (list_elem_of_here _ _)).
    destruct m as [[[ts |] |] | | lb | ws lb |]; simpl in *; try exact Hc; discriminate.
  - intros m' Hm'. apply Hms. by apply list_elem_of_further.
Qed.

(** X1: the provider starts with an empty leaderboard, which is truthy, so
    until a [leaderboard_update] or [game_ended] has been received,
    [leaderboard || teams] is that empty list: finishing the game then yields
    no winners and empty final standings, the sidebar leaderboard has no rows
    and no celebration is rendered, whatever teams have joined. *)
Theorem finish_before_first_standings ms :
  (∀ m, m ∈ ms → writes_leaderboard m = false) →
  let c := deliver initial ms in
  teamsToSort c = [] ∧
  Finish.winners (handleFinishGame c) = [] ∧
  final_leaderboard (handleFinishGame c) = [] ∧
  rows (teamsToSort c) = [] ∧
  celebration_rendered (Finish.winners (handleFinishGame c)) = false.
Proof.
  intros Hms c.
  assert (Hl : teamsToSort c = []).
  { unfold teamsToSort, c. by rewrite deliver_keeps_empty_leaderboard. }
  unfold handleFinishGame. rewrite Hl. repeat split; reflexivity.
Qed.

Lemma finish_before_first_standings_witness :
  let red := Team 1 "Red" (Some 0) (Some 0) ∅ in
  let blue := Team 2 "Blue" (Some 0) (Some 0) ∅ in
  let c := deliver initial
             [Context.TeamJoined (Some (Some [red; blue])); Context.GameStarted] in
  Context.teams c = [red; blue] ∧ Finish.winners (handleFinishGame c) = [].
Proof.
  intros red blue c. split; [reflexivity |].
  apply (finish_before_first_standings
           [Context.TeamJoined (Some (Some [red; blue])); Context.GameStarted]).
  intros m Hm. rewrite !elem_of_cons, elem_of_nil in Hm.
  destruct Hm as [-> | [-> | []]]; reflexivity.
Defined.

Lemma score_at_0_max l u :
  u ∈ l → score0 u ≤ score_at (sort_desc l) 0.
Proof.
  intros Hu. rewrite <- (sort_desc_perm l) in Hu.
  apply list_elem_of_lookup_1 in Hu as [k Hk].
  pose proof (lookup_lt_Some _ _ _ Hk) as Hlt.
  pose proof (sorted_descending _ (sort_desc_sorted l) 0%nat k ltac:(lia) Hlt) as Hd.
  unfold score_at at 1 in Hd. by rewrite Hk in Hd.
Qed.

Lemma winners_share_highest c w :
  w ∈ Finish.winners (handleFinishGame c) →
  w ∈ teamsToSort c ∧ score0 w = score_at (sort_desc (teamsToSort c)) 0.
Proof.
  unfold handleFinishGame. simpl. rewrite list_elem_of_In, filter_In.
  intros [Hin Heq]. apply list_elem_of_In in Hin. rewrite sort_desc_perm in Hin.
  split; [exact Hin | by apply Z.eqb_eq].
Qed.

Lemma winners_nonempty c :
  teamsToSort c ≠ [] → Finish.winners (handleFinishGame c) ≠ [].
Proof.
  intros Hne. unfold handleFinishGame. simpl.
  destruct (sort_desc (teamsToSort c)) as [| h l] eqn:Hs.
  - exfalso. apply Hne. apply Permutation_nil_r. rewrite <- Hs.
    symmetry. apply sort_desc_perm.
  - unfold score_at. simpl. by rewrite Z.eqb_refl.
Qed.

(** X2: a client that receives the [game_ended] data as [handleFinishGame]
    sent them shows the winners the facilitator computed; the celebration is
    rendered exactly when the list that was sorted is not empty; and the
    "Final Score" under the announcement, the score of the first winner, is
    the score of every winner. *)
Theorem winners_shown_as_computed c :
  let r := handleFinishGame c in
  let ws := handleGameEnded (sent r) in
  ws = Finish.winners r ∧
  (celebration_rendered ws = true ↔ teamsToSort c ≠ []) ∧
  (∀ w, w ∈ ws → score0 w = final_score_shown ws).
Proof.
  intros r ws. subst ws r. cbn [handleGameEnded sent GameEnd.winners].
  split; [reflexivity |]. split.
  - unfold celebration_rendered. split.
    + intros H Hnil. unfold handleFinishGame in H. rewrite Hnil in H. discriminate H.
    + intros Hne. apply winners_nonempty in Hne.
      destruct (Finish.winners (handleFinishGame c)); [done | reflexivity].
  - intros w Hw. unfold final_score_shown.
    destruct (Finish.winners (handleFinishGame c)) as [| w0 ws] eqn:Hws.
    + by apply elem_of_nil in Hw.
    + simpl. rewrite <- Hws in Hw.
      assert (Hw0 : w0 ∈ Finish.winners (handleFinishGame c))
        by (rewrite Hws; apply list_elem_of_here).
      apply winners_share_highest in Hw as [_ ->].
      apply winners_share_highest in Hw0 as [_ ->]. reflexivity.
Qed.

Lemma insert_desc_front a l :
  Forall (not_above a) l → insert_desc a l = a :: l.
Proof.
  intros H. destruct l as [| u l]; [reflexivity |]. simpl.
  apply Forall_cons in H as [Hu _]. unfold not_above in Hu.
  destruct (Z.ltb_spec (score0 a) (score0 u)); [lia | reflexivity].
Qed.

(** Sorting a list that is already in descending order changes nothing. *)
Lemma sort_desc_sorted_id l : StronglySorted not_above l → sort_desc l = l.
Proof.
  induction 1 as [| a l Hs IH Ha]; [reflexivity |].
  cbn [sort_desc foldr]. fold (sort_desc l). rewrite IH.
  by apply insert_desc_front.
Qed.

Lemma sort_desc_idempotent l : sort_desc (sort_desc l) = sort_desc l.
Proof. apply sort_desc_sorted_id, sort_desc_sorted. Qed.

(** X3: on a client that receives the [game_ended] data as sent, the status
    becomes [completed], the leaderboard becomes the final standings, the
    final leaderboard overlay lists the teams in exactly the order of the
    event (sorting them again changes nothing), and finishing the game from
    that state would give the same winners and standings again. *)
Theorem final_standings_as_sent c c0 :
  let r := handleFinishGame c in
  let c' := Context.handleMessage (to_message (sent r)) c0 in
  Context.gameStatus c' = "completed" ∧
  Context.teams c' = Context.teams c0 ∧
  teamsToSort c' = final_leaderboard r ∧
  (rows (teamsToSort c')).*2 = final_leaderboard r ∧
  handleFinishGame c' = r.
Proof.
  intros r c'.
  set (sorted := sort_desc (teamsToSort c)).
  assert (Hr : r = GameEndedData
                     (List.filter (λ tm, score0 tm =? score_at sorted 0) sorted) sorted)
    by reflexivity.
  assert (Hc' : c' = Context.Ctx (Context.teams c0) (Some sorted) "completed")
    by reflexivity.
  assert (Hl : teamsToSort c' = sorted) by (rewrite Hc'; reflexivity).
  split; [by rewrite Hc' |]. split; [by rewrite Hc' |].
  split; [by rewrite Hl, Hr |].
  split; [rewrite Hl, Hr, rows_teams; apply sort_desc_idempotent |].
  unfold handleFinishGame. rewrite Hl, Hr.
  unfold sorted. by rewrite sort_desc_idempotent.
Qed.

End GameEndFacts.

(** ** Tokens and medals *)

Section TokenFacts.
Import Leaderboard Tokens.

Lemma findIndex_from_missing l tm : ∀ k,
  id tm ∉ map id l → findIndex_from k l tm = -1.
Proof.
  induction l as [| u l IH]; intros k Hn; [reflexivity |].
  simpl in *. rewrite not_elem_of_cons in Hn. destruct Hn as [Hne Hn].
  destruct (Z.eqb_spec (id u) (id tm)); [congruence | by apply IH].
Qed.

Lemma findIndex_from_lookup l : ∀ k i tm,
  NoDup (map id l) → l !! i = Some tm →
  findIndex_from k l tm = k + Z.of_nat i.
Proof.
  induction l as [| u l IH]; intros k i tm Hnd Hi; [by destruct i |].
  simpl in Hnd. apply NoDup_cons in Hnd as [Hu Hnd].
  destruct i as [| i]; simpl in *.
  - injection Hi as ->. rewrite Z.eqb_refl. lia.
  - destruct (Z.eqb_spec (id u) (id tm)) as [Heq | _].
    + exfalso. apply Hu. rewrite Heq. apply list_elem_of_fmap.
      exists tm. split; [reflexivity | by eapply list_elem_of_lookup_2].
    + rewrite (IH (k + 1) i tm Hnd Hi). lia.
Qed.

Lemma token_at_rem (i : nat) :
  token_at (Z.rem (Z.of_nat i) 8) = animalTokens !! (i mod 8)%nat ∧
  is_Some (animalTokens !! (i mod 8)%nat).
Proof.
  rewrite Z.rem_mod_nonneg by lia.
  assert (Hm : Z.of_nat i mod 8 = Z.of_nat (i mod 8)) by (by rewrite Nat2Z.inj_mod).
  rewrite Hm. unfold token_at.
  destruct (Z.ltb_spec (Z.of_nat (i mod 8)) 0); [lia |].
  rewrite Nat2Z.id. split; [reflexivity |].
  apply lookup_lt_is_Some_2. simpl.
  pose proof (Nat.mod_upper_bound i 8). lia.
Qed.

Lemma leaderboard_token_lookup teams i tm :
  NoDup (map id teams) → teams !! i = Some tm →
  leaderboard_token teams tm = animalTokens !! (i mod 8)%nat.
Proof.
  intros Hnd Hi.
  pose proof (findIndex_from_lookup teams 0 i tm Hnd Hi) as Hfind.
  rewrite Z.add_0_l in Hfind. fold (findIndex teams tm) in Hfind.
  destruct (token_at_rem i) as [Hrem _].
  unfold leaderboard_token. rewrite Hfind.
  destruct (Z.leb_spec 0 (Z.of_nat i)); [exact Hrem | lia].
Qed.

(** X4: when the team ids are distinct, a team has the same animal
    everywhere: the leaderboard (with the team list for the look-up), the
    tile it stands on and the legend under the board all show the token
    number [i mod 8] for the team that joined in place [i]; a team that the
    look-up list does not know gets the first token on the leaderboard. *)
Theorem team_token_agrees teams i tm :
  NoDup (map id teams) →
  teams !! i = Some tm →
  is_Some (animalTokens !! (i mod 8)%nat) ∧
  leaderboard_token teams tm = animalTokens !! (i mod 8)%nat ∧
  tile_token teams tm = animalTokens !! (i mod 8)%nat ∧
  legend_token i = animalTokens !! (i mod 8)%nat ∧
  (∀ stranger, id stranger ∉ map id teams →
               leaderboard_token teams stranger = animalTokens !! 0%nat).
Proof.
  intros Hnd Hi.
  pose proof (findIndex_from_lookup teams 0 i tm Hnd Hi) as Hfind.
  rewrite Z.add_0_l in Hfind. fold (findIndex teams tm) in Hfind.
  destruct (token_at_rem i) as [Hrem Hsome].
  split; [exact Hsome |]. split; [| split; [| split]].
  - by apply leaderboard_token_lookup.
  - unfold tile_token, board_token. by rewrite Hfind.
  - exact Hrem.
  - intros stranger Hs. unfold leaderboard_token, findIndex.
    by rewrite findIndex_from_missing.
Qed.

Lemma team_token_agrees_witness :
  let red := Team 11 "Red" None None ∅ in
  let blue := Team 12 "Blue" None None ∅ in
  leaderboard_token [red; blue] blue = Some "🦊" ∧
  tile_token [red; blue] blue = Some "🦊" ∧
  legend_token 1 = Some "🦊".
Proof.
  intros red blue.
  destruct (team_token_agrees [red; blue] 1 blue) as (_ & H1 & H2 & H3 & _).
  - simpl. repeat constructor; rewrite ?elem_of_cons, ?elem_of_nil; intuition discriminate.
  - reflexivity.
  - exact (conj H1 (conj H2 H3)).
Defined.

Lemma animalTokens_distinct : NoDup animalTokens.
Proof.
  unfold animalTokens.
  repeat (apply NoDup_cons; split;
          [rewrite ?elem_of_cons, elem_of_nil; intuition discriminate |]).
  apply NoDup_nil_2.
Qed.

(** X5: with at most eight teams and distinct ids, two different teams never
    share an animal token on the leaderboard. *)
Theorem tokens_distinct_up_to_eight teams i j ti tj :
  NoDup (map id teams) → (length teams ≤ 8)%nat →
  teams !! i = Some ti → teams !! j = Some tj → i ≠ j →
  leaderboard_token teams ti ≠ leaderboard_token teams tj.
Proof.
  intros Hnd Hlen Hi Hj Hij.
  rewrite (leaderboard_token_lookup teams i ti Hnd Hi).
  rewrite (leaderboard_token_lookup teams j tj Hnd Hj).
  pose proof (lookup_lt_Some _ _ _ Hi). pose proof (lookup_lt_Some _ _ _ Hj).
  rewrite !Nat.mod_small by lia.
  intros Heq.
  destruct (animalTokens !! i) as [a |] eqn:Ha.
  - symmetry in Heq.
    apply Hij. eapply NoDup_lookup; [apply animalTokens_distinct | exact Ha | exact Heq].
  - apply lookup_ge_None in Ha. simpl in Ha. lia.
Qed.

Lemma tokens_distinct_up_to_eight_witness :
  let red := Team 11 "Red" None None ∅ in
  let blue := Team 12 "Blue" None None ∅ in
  leaderboard_token [red; blue] red ≠ leaderboard_token [red; blue] blue.
Proof.
  intros red blue.
  apply (tokens_distinct_up_to_eight [red; blue] 0 1 red blue).
  - simpl. repeat constructor; rewrite ?elem_of_cons, ?elem_of_nil; intuition discriminate.
  - simpl. lia.
  - reflexivity.
  - reflexivity.
  - discriminate.
Defined.

Lemma higher_than_zero c l :
  higher_than c l = 0%nat ↔ ∀ u, u ∈ l → score0 u ≤ c.
Proof.
  induction l as [| a l IH].
  - split; [intros _ u Hu; by apply elem_of_nil in Hu | reflexivity].
  - rewrite higher_than_cons. split.
    + intros H u Hu. destruct (Z.ltb_spec c (score0 a)); [discriminate |].
      apply elem_of_cons in Hu as [-> | Hu]; [lia |]. apply IH; [lia | exact Hu].
    + intros H. pose proof (H a (list_elem_of_here _ _)).
      destruct (Z.ltb_spec c (score0 a)); [lia |]. simpl. apply IH.
      intros u Hu. apply H. by apply list_elem_of_further.
Qed.

Lemma gold_only_for_rank_1 r : getMedalEmoji r = "🥇" ↔ r = 1%nat.
Proof.
  split; [| intros ->; reflexivity].
  destruct r as [| [| [| [| r]]]]; simpl; try reflexivity; intros H; discriminate H.
Qed.

(** X6: on the leaderboard a team wears the gold medal exactly when no team
    has a higher score, so every team tied at the top wears it. *)
Theorem gold_medal_for_top_score teams i r tm :
  rows teams !! i = Some (r, tm) →
  (getMedalEmoji r = "🥇" ↔ ∀ u, u ∈ teams → score0 u ≤ score0 tm).
Proof.
  intros Hrow. apply rows_lookup in Hrow as [Htm ->].
  pose proof (lookup_lt_Some _ _ _ Htm) as Hlt.
  rewrite getTeamRank_count
    by (try apply sorted_descending, sort_desc_sorted; assumption).
  assert (Hs : score_at (sort_desc teams) i = score0 tm)
    by (unfold score_at; by rewrite Htm).
  rewrite Hs, (higher_than_perm _ _ _ (sort_desc_perm teams)).
  rewrite gold_only_for_rank_1, <- higher_than_zero. lia.
Qed.

Lemma gold_medal_for_top_score_witness :
  let red := Team 1 "Red" (Some 10) None ∅ in
  let blue := Team 2 "Blue" (Some 4) None ∅ in
  let green := Team 3 "Green" (Some 10) None ∅ in
  getMedalEmoji 1 = "🥇" ↔
  ∀ u, u ∈ [red; blue; green] → score0 u ≤ score0 green.
Proof.
  intros red blue green.
  apply (gold_medal_for_top_score [red; blue; green] 1 1%nat green). reflexivity.
Defined.

End TokenFacts.

(** ** The board *)

Section GameBoardFacts.
Import GameBoard.

Lemma maxScore_bounds teams :
  0 ≤ maxScore teams ∧ ∀ tm, tm ∈ teams → score0 tm ≤ maxScore teams.
Proof.
  unfold maxScore. induction teams as [| a l [IH0 IH]]; simpl.
  - split; [lia | intros tm H; by apply elem_of_nil in H].
  - split; [lia |]. intros tm Htm.
    apply elem_of_cons in Htm as [-> | Htm]; [lia |]. specialize (IH tm Htm). lia.
Qed.

Lemma elem_of_generateCurvyPath count t :
  t ∈ generateCurvyPath count ↔
  0 ≤ index t < count ∧
  t = Tile (index t) (50 + index t * 70) (index t =? 0) (index t =? count - 1)
           ((0 <? index t) && (Z.rem (index t) 5 =? 0)).
Proof.
  unfold generateCurvyPath. change (map ?f ?l) with (f <$> l).
  rewrite list_elem_of_fmap. split.
  - intros (i & -> & Hi). apply elem_of_seqZ in Hi. simpl. split; [lia | reflexivity].
  - intros [Hi Ht]. exists (index t). split; [exact Ht |]. apply elem_of_seqZ. lia.
Qed.

(** X7: a team of the list is drawn on a tile exactly when the tile carries
    the number of its score; for a score of 0 or more that tile exists, is
    the only one with that number and is not the finish tile; a team with a
    negative score is drawn on no tile. *)
Theorem team_on_its_tile teams tm :
  tm ∈ teams →
  (∀ t, t ∈ pathTiles teams →
        (tm ∈ teamsAtPosition teams t ↔ index t = score0 tm)) ∧
  NoDup (map index (pathTiles teams)) ∧
  (0 ≤ score0 tm →
   ∃ t, t ∈ pathTiles teams ∧ index t = score0 tm ∧ isFinish t = false) ∧
  (score0 tm < 0 → ∀ t, t ∈ pathTiles teams → tm ∉ teamsAtPosition teams t).
Proof.
  intros Htm.
  assert (Hat : ∀ t, tm ∈ teamsAtPosition teams t ↔ index t = score0 tm).
  { intros t. unfold teamsAtPosition.
    rewrite list_elem_of_In, filter_In, <- list_elem_of_In, Z.eqb_eq. intuition. }
  destruct (maxScore_bounds teams) as [H0 Hmax]. specialize (Hmax tm Htm).
  split; [intros t _; apply Hat |]. split; [| split].
  - unfold pathTiles, generateCurvyPath. rewrite map_map. simpl. rewrite map_id.
    apply NoDup_seqZ.
  - intros Hs.
    exists (Tile (score0 tm) (50 + score0 tm * 70) (score0 tm =? 0)
                 (score0 tm =? numTiles teams - 1)
                 ((0 <? score0 tm) && (Z.rem (score0 tm) 5 =? 0))).
    split; [| split; [reflexivity |]].
    + apply elem_of_generateCurvyPath. simpl. split; [| reflexivity].
      unfold numTiles. lia.
    + simpl. apply Z.eqb_neq. unfold numTiles. lia.
  - intros Hneg t Ht Hin. apply Hat in Hin.
    apply elem_of_generateCurvyPath in Ht as [Hi _]. lia.
Qed.

Lemma team_on_its_tile_witness :
  let red := Team 1 "Red" (Some 7) None ∅ in
  ∃ t, t ∈ pathTiles [red] ∧ index t = 7 ∧ isFinish t = false.
Proof.
  intros red.
  destruct (team_on_its_tile [red] red) as (_ & _ & H & _).
  - apply list_elem_of_here.
  - apply H. change (0 ≤ 7). lia.
Defined.

Lemma filter_none {A} (f : A → bool) l :
  (∀ a, a ∈ l → f a = false) → List.filter f l = [].
Proof.
  induction l as [| a l IH]; intros H; [reflexivity |]. simpl.
  rewrite (H a (list_elem_of_here _ _)). apply IH.
  intros b Hb. apply H. by apply list_elem_of_further.
Qed.

(** X8: the path has at least 20 tiles and always ends at least four tiles
    beyond the highest score: its last tile, the only one marked as finish,
    is never reached by a team, and its first tile is the only start. *)
Theorem finish_tile_out_of_reach teams t :
  t ∈ pathTiles teams →
  20 ≤ numTiles teams ∧
  length (pathTiles teams) = Z.to_nat (numTiles teams) ∧
  (isFinish t = true ↔ index t = numTiles teams - 1) ∧
  (isStart t = true ↔ index t = 0) ∧
  (isFinish t = true →
   maxScore teams + 4 ≤ index t ∧ teamsAtPosition teams t = []).
Proof.
  intros Ht. apply elem_of_generateCurvyPath in Ht as [Hi Ht].
  destruct (maxScore_bounds teams) as [H0 Hmax].
  split; [unfold numTiles; lia |].
  split; [unfold pathTiles, generateCurvyPath; by rewrite length_map, length_seqZ |].
  rewrite Ht; cbn [isFinish isStart index]. rewrite !Z.eqb_eq.
  split; [reflexivity |]. split; [reflexivity |].
  intros Hfin. split; [unfold numTiles in *; lia |].
  unfold teamsAtPosition. cbn [index].
  apply filter_none. intros tm Htm. specialize (Hmax tm Htm).
  apply Z.eqb_neq. unfold numTiles in *. lia.
Qed.

Lemma finish_tile_out_of_reach_witness :
  let red := Team 1 "Red" (Some 30) None ∅ in
  let finish := Tile 34 2430 false true false in
  finish ∈ pathTiles [red] ∧ teamsAtPosition [red] finish = [].
Proof.
  intros red finish.
  assert (Hin : finish ∈ pathTiles [red]).
  { apply elem_of_generateCurvyPath. split; [| reflexivity].
    change (0 ≤ 34 < 35). lia. }
  split; [exact Hin |].
  destruct (finish_tile_out_of_reach [red] finish Hin) as (_ & _ & _ & _ & H).
  apply H. reflexivity.
Defined.

End GameBoardFacts.

(** ** The dice timer and the grading queue over whole runs *)

Section PageRunFacts.
Import GamePage DiceTimer.

Lemma step_in_range role p e : in_range p → in_range (step role p e).
Proof.
  unfold in_range. intros Hp.
  destruct e; simpl; try exact Hp; try (split; [lia | intros _; lia]);
    try reflexivity.
  - unfold diceInterval. destruct (diceTimerRef p) eqn:Href; [| by rewrite Href].
    destruct (diceTimer p) as [n |]; [| discriminate Hp].
    destruct Hp as [Hn H1]. specialize (H1 eq_refl). simpl.
    destruct (Z.leb_spec n 1); simpl; split; try lia; intros; try discriminate; lia.
  - unfold handleAnswerSubmittedDetails. destruct (is_facilitator role); exact Hp.
  - unfold restorePending. destruct (_ && _); exact Hp.
Qed.

(** X9: whatever happens on the page, a dice countdown that is displayed is
    between 0 and 30, it is at least 1 for as long as its interval runs, and
    no interval runs while no countdown is displayed. *)
Theorem dice_timer_in_range role evs :
  match diceTimer (run role initial evs) with
  | Some n => 0 ≤ n ≤ 30 ∧ (diceTimerRef (run role initial evs) = true → 1 ≤ n)
  | None => diceTimerRef (run role initial evs) = false
  end.
Proof.
  change (in_range (run role initial evs)).
  assert (H : ∀ evs p, in_range p → in_range (run role p evs)).
  { clear evs. induction evs as [| e evs IH]; intros p Hp; [exact Hp |].
    simpl. apply IH. by apply step_in_range. }
  apply H. reflexivity.
Qed.

Lemma step_quiet role p e :
  e ≠ QuestionReadyForDice →
  diceTimerRef p = false → showDiceSkipModal p = false →
  diceTimerRef (step role p e) = false ∧ showDiceSkipModal (step role p e) = false.
Proof.
  intros He Href Hm.
  destruct e; try congruence; simpl;
    unfold diceInterval, handleAnswerSubmittedDetails, restorePending;
    rewrite ?Href; repeat case_match; simpl; auto.
Qed.

(** X10: the skip prompt is raised by a running dice interval only, and
    intervals are started by [question_ready_for_dice] only: once the prompt
    is closed and no interval runs (after "Wait More", after a roll, after a
    hop), nothing brings the prompt back before the next
    [question_ready_for_dice], on the facilitator's page included. *)
Theorem skip_prompt_stays_closed role p evs :
  diceTimerRef p = false → showDiceSkipModal p = false →
  QuestionReadyForDice ∉ evs →
  showDiceSkipModal (run role p evs) = false ∧
  dice_skip_modal_visible role (run role p evs) = false ∧
  diceTimerRef (run role p evs) = false.
Proof.
  revert p. induction evs as [| e evs IH]; intros p Href Hm Hevs.
  - unfold dice_skip_modal_visible. simpl. by rewrite Hm.
  - rewrite not_elem_of_cons in Hevs. destruct Hevs as [He Hevs].
    destruct (step_quiet role p e) as [Href' Hm']; [congruence | done | done |].
    simpl. by apply IH.
Qed.

Lemma skip_prompt_stays_closed_witness :
  dice_skip_modal_visible "facilitator"
    (Nat.iter 30 (diceInterval "facilitator") (handleQuestionReadyForDice initial)) = true ∧
  dice_skip_modal_visible "facilitator"
    (run "facilitator" (timed_out_and_waiting "facilitator")
       [DiceIntervalFired; TimeUp; DiceIntervalFired]) = false.
Proof.
  split; [reflexivity |].
  apply (skip_prompt_stays_closed "facilitator" (timed_out_and_waiting "facilitator")
           [DiceIntervalFired; TimeUp; DiceIntervalFired]).
  - reflexivity.
  - reflexivity.
  - rewrite !not_elem_of_cons. repeat split; try discriminate. apply not_elem_of_nil.
Defined.

Lemma details_ids role a p :
  is_facilitator role = true →
  map answer_id (submittedAnswers (handleAnswerSubmittedDetails role a p)) =
  if decide (answer_id a ∈ map answer_id (submittedAnswers p))
  then map answer_id (submittedAnswers p)
  else (map answer_id (submittedAnswers p) ++ [answer_id a])%list.
Proof.
  intros Hrole. unfold handleAnswerSubmittedDetails. rewrite Hrole. simpl.
  destruct (existsb _ (submittedAnswers p)) eqn:Hex.
  - apply existsb_exists in Hex as (b & Hb & Heq). apply Z.eqb_eq in Heq.
    rewrite decide_True; [reflexivity |].
    apply list_elem_of_fmap. exists b. split; [done | by apply list_elem_of_In].
  - rewrite decide_False by (by apply existsb_answer_id).
    by rewrite map_app.
Qed.

Lemma remove_dups_snoc_rev (x : Z) (l : list Z) :
  rev (remove_dups (rev (l ++ [x])%list)) =
  if decide (x ∈ rev (remove_dups (rev l)))
  then rev (remove_dups (rev l))
  else (rev (remove_dups (rev l)) ++ [x])%list.
Proof.
  assert (Hiff : x ∈ rev (remove_dups (rev l)) ↔ x ∈ rev l).
  { by rewrite list_elem_of_In, <- in_rev, <- list_elem_of_In, elem_of_remove_dups. }
  rewrite rev_app_distr. simpl.
  destruct (decide_rel elem_of x (rev l)) as [Hin | Hnin].
  - rewrite decide_True; [reflexivity | by apply Hiff].
  - rewrite decide_False; [reflexivity | by rewrite Hiff].
Qed.

Lemma details_run role l : ∀ p,
  is_facilitator role = true →
  map answer_id (submittedAnswers (run role p (map AnswerSubmittedDetails l))) =
  foldl (λ ids a, if decide (answer_id a ∈ ids) then ids else (ids ++ [answer_id a])%list)
        (map answer_id (submittedAnswers p)) l.
Proof.
  induction l as [| a l IH]; intros p Hrole; [reflexivity |].
  simpl. rewrite IH by exact Hrole. by rewrite details_ids.
Qed.

Lemma first_arrivals_fold l : ∀ done_,
  foldl (λ ids (a : answer),
           if decide (answer_id a ∈ ids) then ids else (ids ++ [answer_id a])%list)
        (rev (remove_dups (rev done_))) l =
  rev (remove_dups (rev (done_ ++ map answer_id l)%list)).
Proof.
  induction l as [| a l IH]; intros done_; simpl.
  - by rewrite app_nil_r.
  - rewrite <- remove_dups_snoc_rev, IH. by rewrite <- app_assoc.
Qed.

Lemma queue_entry_is_first l : ∀ p a,
  a ∈ submittedAnswers (run "facilitator" p (map AnswerSubmittedDetails l)) →
  (a ∈ submittedAnswers p) ∨
  ((answer_id a ∉ map answer_id (submittedAnswers p)) ∧
   List.find (λ b, answer_id b =? answer_id a) l = Some a).
Proof.
  induction l as [| x l IH]; intros p a Ha; [by left |].
  change (a ∈ submittedAnswers
                (run "facilitator" (handleAnswerSubmittedDetails "facilitator" x p)
                     (map AnswerSubmittedDetails l))) in Ha.
  apply IH in Ha.
  pose proof (details_ids "facilitator" x p eq_refl) as Hids.
  unfold handleAnswerSubmittedDetails in Ha.
  change (is_facilitator "facilitator") with true in Ha.
  cbv iota in Ha. cbn [submittedAnswers] in Ha.
  cbn [List.find].
  destruct (existsb _ (submittedAnswers p)) eqn:Hex.
  - cbv iota in Ha.
    destruct Ha as [Ha | [Hn Hf]]; [by left |]. right. split; [exact Hn |].
    destruct (Z.eqb_spec (answer_id x) (answer_id a)) as [Heq | _]; [| exact Hf].
    exfalso. apply Hn.
    apply existsb_exists in Hex as (b & Hb & Hbe). apply Z.eqb_eq in Hbe.
    apply list_elem_of_fmap. exists b.
    split; [congruence | by apply list_elem_of_In].
  - apply existsb_answer_id in Hex. cbv iota in Ha.
    destruct Ha as [Ha | [Hn Hf]].
    + apply elem_of_app in Ha as [Ha | Ha]; [by left |].
      apply list_elem_of_singleton in Ha. subst a. right. split; [exact Hex |].
      by rewrite Z.eqb_refl.
    + rewrite map_app, elem_of_app in Hn. right. split; [tauto |].
      destruct (Z.eqb_spec (answer_id x) (answer_id a)) as [Heq | _]; [| exact Hf].
      exfalso. apply Hn. right. simpl. rewrite Heq. apply list_elem_of_here.
Qed.

(** X11: on the facilitator's page, after any number of
    [answer_submitted_details] events on an empty queue, the queue lists
    every answer id that arrived exactly once, in the order of first
    arrival, and the entry kept for an id is the first one that arrived with
    it: a repeated event never replaces or moves an entry. *)
Theorem grading_queue_first_arrivals (arrived : list answer) :
  let queue := submittedAnswers
                 (run "facilitator" initial (map AnswerSubmittedDetails arrived)) in
  map answer_id queue = rev (remove_dups (rev (map answer_id arrived))) ∧
  ∀ a, a ∈ queue →
       List.find (λ b, answer_id b =? answer_id a) arrived = Some a.
Proof.
  intros queue. split.
  - unfold queue. rewrite details_run by reflexivity.
    apply (first_arrivals_fold arrived []).
  - intros a Ha. apply queue_entry_is_first in Ha.
    destruct Ha as [Ha | [_ Hf]]; [by apply elem_of_nil in Ha | exact Hf].
Qed.

End PageRunFacts.

(** ** The team list under repeated leaderboard updates *)

Section LeaderboardUpdateFacts.
Import Context.

Lemma find_entry_same_id lb tm tm' : id tm' = id tm → find_entry lb tm' = find_entry lb tm.
Proof. intros H. unfold find_entry. by rewrite H. Qed.

(** X12: applying the same [leaderboard_update] a second time changes
    nothing: the team list after two deliveries is the list after one. *)
Theorem leaderboard_update_idempotent lb c :
  handleMessage (LeaderboardUpdate lb) (handleMessage (LeaderboardUpdate lb) c) =
  handleMessage (LeaderboardUpdate lb) c.
Proof.
  destruct lb as [[| e es] |]; simpl; try reflexivity.
  f_equal. unfold apply_leaderboard. rewrite map_map.
  apply map_ext. intros tm.
  destruct (find_entry (e :: es) tm) as [u |] eqn:Hf.
  - rewrite (find_entry_same_id (e :: es) tm) by reflexivity. by rewrite Hf.
  - by rewrite Hf.
Qed.

End LeaderboardUpdateFacts.

(** ** The answer countdown: submissions and schedules *)

Section AnswerTimerFacts.
Import GamePage Timer AnswerTimer.



Lemma batched_step duration p n w e :
  answerSubmitted p = false → e ≠ Tick → 0 ≤ n →
  (n < duration ∧ w = World (T (duration - n) true) p false 0) ∨
  (duration ≤ n ∧ w = World (T (Z.min duration 0) false) (handleTimeUp p) true 1) →
  (n + ticks [e] < duration ∧
   answer_timer_step w e = World (T (duration - (n + ticks [e])) true) p false 0) ∨
  (duration ≤ n + ticks [e] ∧
   answer_timer_step w e = World (T (Z.min duration 0) false) (handleTimeUp p) true 1).
Proof.
  intros Hp He Hn0 [[Hn ->] | [Hn ->]].
  - destruct e; [congruence | |]; unfold answer_timer_step, ticks; simpl step.
    + unfold tick_batched, updater, parent_render, effect. cbn -[Z.sub Z.leb Z.min].
      destruct (Z.leb_spec (duration - n) 1) as [Hle | Hgt]; cbn -[Z.sub Z.leb Z.min].
      * right. split; [lia |]. do 2 f_equal. lia.
      * destruct (Z.leb_spec (duration - n - 1) 0) as [| _]; [lia |].
        left. cbn. split; [lia |]. do 2 f_equal. lia.
    + unfold parent_render, effect. cbn -[Z.sub Z.leb Z.min]. rewrite Hp.
      destruct (Z.leb_spec (duration - n) 0) as [| _]; [lia |].
      left. cbn. split; [lia |]. do 2 f_equal. lia.
  - right. destruct e; [congruence | |]; unfold answer_timer_step, ticks; cbn;
      (split; [lia | reflexivity]).
Qed.

(** X14: when React evaluates every updater at the [setTimeLeft] call, so
    that the new [timeLeft] and the page's [answerSubmitted] reach the Timer
    in one render, the answer countdown calls the time-up handler exactly
    once, as soon as it is at zero, and never before. *)
Theorem batched_countdown_fires_once duration p evs :
  answerSubmitted p = false →
  all_batched evs →
  let w := answer_timer_run (answer_timer_mount duration p) evs in
  fired w = (if (duration <=? ticks evs)%Z then 1 else 0)%nat ∧
  parent w = (if (duration <=? ticks evs)%Z then handleTimeUp p else p).
Proof.
  intros Hp Hevs w.
  assert (Hrun : ∀ evs n w0, Tick ∉ evs → 0 ≤ n →
    (n < duration ∧ w0 = World (T (duration - n) true) p false 0) ∨
    (duration ≤ n ∧ w0 = World (T (Z.min duration 0) false) (handleTimeUp p) true 1) →
    (n + ticks evs < duration ∧
     answer_timer_run w0 evs = World (T (duration - (n + ticks evs)) true) p false 0) ∨
    (duration ≤ n + ticks evs ∧
     answer_timer_run w0 evs = World (T (Z.min duration 0) false) (handleTimeUp p) true 1)).
  { clear evs Hevs w. induction evs as [| e evs IH]; intros n w0 Hevs Hn0 Hw0.
    - unfold ticks. simpl. rewrite Z.add_0_r. exact Hw0.
    - rewrite not_elem_of_cons in Hevs. destruct Hevs as [He Hevs].
      rewrite ticks_cons, Z.add_assoc.
      change (answer_timer_run w0 (e :: evs))
        with (answer_timer_run (answer_timer_step w0 e) evs).
      apply IH; [exact Hevs | unfold ticks; lia |].
      destruct (batched_step duration p n w0 e Hp ltac:(congruence) Hn0 Hw0)
        as [[H1 H2] | [H1 H2]]; rewrite H2; [left | right]; auto. }
  assert (Hmount :
    (0 < duration ∧ answer_timer_mount duration p = World (T (duration - 0) true) p false 0) ∨
    (duration ≤ 0 ∧
     answer_timer_mount duration p = World (T (Z.min duration 0) false) (handleTimeUp p) true 1)).
  { unfold answer_timer_mount, mount, after_handler, effect. cbn -[Z.leb Z.min Z.sub]. rewrite Hp.
    destruct (Z.leb_spec duration 0) as [Hle | Hgt]; cbn -[Z.min Z.sub].
    - right. split; [lia |]. do 2 f_equal. lia.
    - left. split; [lia |]. do 2 f_equal. lia. }
  specialize (Hrun evs 0 (answer_timer_mount duration p) Hevs ltac:(lia) Hmount).
  rewrite Z.add_0_l in Hrun. fold w in Hrun.
  destruct Hrun as [[Hn ->] | [Hn ->]].
  - destruct (Z.leb_spec duration (ticks evs)); [lia | split; reflexivity].
  - destruct (Z.leb_spec duration (ticks evs)); [split; reflexivity | lia].
Qed.

Lemma batched_countdown_fires_once_witness :
  fired (answer_timer_run (answer_timer_mount 2 initial)
           [TickBatched; Render; TickBatched; TickBatched; Render]) = 1%nat.
Proof.
  apply (batched_countdown_fires_once 2 initial
           [TickBatched; Render; TickBatched; TickBatched; Render]).
  - reflexivity.
  - unfold all_batched. rewrite !not_elem_of_cons.
    repeat split; try discriminate. apply not_elem_of_nil.
Defined.

End AnswerTimerFacts.

(** ** Forms: trimming, passwords, answers, joining *)

Section TrimFacts.
Import JS.

Lemma trimStart_split s :
  ∃ pre, s = (pre ++ trimStart s)%list ∧ Forall (λ c, is_whitespace c = true) pre.
Proof.
  induction s as [| c s (pre & Hs & Hpre)]; [by exists [] |]. simpl.
  destruct (is_whitespace c) eqn:Hc.
  - exists (c :: pre). split; [simpl; congruence | by constructor].
  - by exists [].
Qed.

Lemma trimStart_head s c s' : trimStart s = c :: s' → is_whitespace c = false.
Proof.
  induction s as [| d s IH]; [discriminate |]. simpl.
  destruct (is_whitespace d) eqn:Hd; [exact IH |]. by intros [= <- _].
Qed.

Lemma trimStart_id s c s' : s = c :: s' → is_whitespace c = false → trimStart s = s.
Proof. intros -> H. simpl. by rewrite H. Qed.

Lemma trimEnd_split t :
  ∃ post, t = (trimEnd t ++ post)%list ∧ Forall (λ c, is_whitespace c = true) post.
Proof.
  unfold trimEnd. destruct (trimStart_split (rev t)) as (pre & Ht & Hpre).
  exists (rev pre). split.
  - rewrite <- rev_app_distr, <- Ht. by rewrite rev_involutive.
  - apply Forall_forall. intros c Hc. apply list_elem_of_In, in_rev in Hc.
    rewrite Forall_forall in Hpre. apply Hpre. by apply list_elem_of_In.
Qed.

Lemma trim_length s : (length (trim s) ≤ length s)%nat.
Proof.
  unfold trim. destruct (trimStart_split s) as (pre & Hs & _).
  destruct (trimEnd_split (trimStart s)) as (post & Ht & _).
  rewrite Hs at 2. rewrite Ht at 2. rewrite !length_app. lia.
Qed.

Lemma trim_head s c : head (trim s) = Some c → is_whitespace c = false.
Proof.
  unfold trim. intros Hh.
  destruct (trimEnd_split (trimStart s)) as (post & Ht & _).
  destruct (trimEnd (trimStart s)) as [| d u] eqn:Hu; [discriminate |].
  simpl in Hh. injection Hh as ->. simpl in Ht.
  by apply (trimStart_head s c (u ++ post)%list).
Qed.

Lemma trim_last s c : last (trim s) = Some c → is_whitespace c = false.
Proof.
  unfold trim, trimEnd. intros Hl.
  destruct (trimStart (rev (trimStart s))) as [| d u] eqn:Hu; [discriminate |].
  apply trimStart_head in Hu. simpl in Hl.
  rewrite last_snoc in Hl. by injection Hl as <-.
Qed.

Lemma is_empty_false (s : jstring) : is_empty s = false ↔ (1 ≤ length s)%nat.
Proof. destruct s; simpl; split; intros; try discriminate; lia. Qed.

End TrimFacts.

Section JoinFacts.
Import JS JoinForm.

(** X15: a join request is sent only for a team name of 2 to 50 code units
    as typed; the name that is sent is the trimmed one, so it begins and ends
    with something other than white space, is at most 50 code units long, and
    may be as short as 1; the room code that is sent is the upper-cased field,
    trimmed. *)
Theorem join_request_is_trimmed toUpperCase roomCode teamName r :
  handleJoinGame toUpperCase roomCode teamName = Requested r →
  (2 ≤ length teamName ≤ 50)%nat ∧
  team_name r = trim teamName ∧
  room_code r = trim (toUpperCase roomCode) ∧
  (1 ≤ length (team_name r) ≤ 50)%nat ∧
  (∀ c, head (team_name r) = Some c → is_whitespace c = false) ∧
  (∀ c, last (team_name r) = Some c → is_whitespace c = false).
Proof.
  unfold handleJoinGame.
  destruct (is_empty (trim roomCode)); [discriminate |].
  destruct (is_empty (trim teamName)) eqn:Hname; [discriminate |].
  destruct (Nat.ltb_spec (length teamName) 2) as [| Hlo]; [discriminate |].
  destruct (Nat.ltb_spec 50 (length teamName)) as [| Hhi]; [discriminate |].
  simpl. intros [= <-]. simpl.
  apply is_empty_false in Hname. pose proof (trim_length teamName).
  repeat split; try lia.
  - apply trim_head.
  - apply trim_last.
Qed.

Lemma join_request_is_trimmed_witness :
  ∃ r, handleJoinGame (λ s, s) (lit "ABC123") (lit " A") = Requested r ∧
       team_name r = lit "A" ∧ length (team_name r) = 1%nat ∧
       stored_team_name (lit " A") ≠ team_name r.
Proof.
  eexists. split; [reflexivity |].
  destruct (join_request_is_trimmed (λ s, s) (lit "ABC123") (lit " A") _ eq_refl)
    as (_ & H & _).
  split; [exact H |]. split; [reflexivity | discriminate].
Defined.

End JoinFacts.

Section LoginFacts.
Import JS LoginForm.

Lemma has_upper_spec pwd : has_upper pwd = true ↔ ∃ c, c ∈ pwd ∧ (65 ≤ c ≤ 90)%N.
Proof.
  unfold has_upper. rewrite existsb_exists. split.
  - intros (c & Hc & Hr). exists c. split; [by apply list_elem_of_In |].
    apply andb_true_iff in Hr as [H1 H2].
    apply N.leb_le in H1. apply N.leb_le in H2. lia.
  - intros (c & Hc & Hr). exists c. split; [by apply list_elem_of_In |].
    apply andb_true_iff. split; apply N.leb_le; lia.
Qed.

Lemma has_digit_spec pwd : has_digit pwd = true ↔ ∃ c, c ∈ pwd ∧ (48 ≤ c ≤ 57)%N.
Proof.
  unfold has_digit. rewrite existsb_exists. split.
  - intros (c & Hc & Hr). exists c. split; [by apply list_elem_of_In |].
    apply andb_true_iff in Hr as [H1 H2].
    apply N.leb_le in H1. apply N.leb_le in H2. lia.
  - intros (c & Hc & Hr). exists c. split; [by apply list_elem_of_In |].
    apply andb_true_iff. split; apply N.leb_le; lia.
Qed.

(** X16: in registration mode the form calls [register], with the fields as
    typed, exactly when the password has at least 8 code units, an upper-case
    letter A-Z and a digit 0-9, which is exactly when the three requirements
    under the field are ticked; otherwise it only alerts; it never logs in
    from registration mode, and in login mode every password, the empty one
    included, is passed to [login] unchecked. *)
Theorem register_needs_strong_password username password :
  ((8 ≤ length password)%nat ∧
   (∃ c, c ∈ password ∧ (65 ≤ c ≤ 90)%N) ∧
   (∃ c, c ∈ password ∧ (48 ≤ c ≤ 57)%N)
   ↔ handleSubmit true username password = Register username password) ∧
  (requirements_ticked password = [true; true; true]
   ↔ handleSubmit true username password = Register username password) ∧
  (handleSubmit true username password = Register username password ∨
   ∃ message, handleSubmit true username password = Alerted message) ∧
  handleSubmit false username password = LogIn username password.
Proof.
  unfold handleSubmit, validatePassword, requirements_ticked.
  rewrite <- has_upper_spec, <- has_digit_spec.
  destruct (Nat.ltb_spec (length password) 8) as [Hlt | Hge].
  - destruct (Nat.leb_spec 8 (length password)); [lia |].
    repeat split; try (intros; discriminate); try (intros (? & _); lia).
    right. by eexists.
  - destruct (Nat.leb_spec 8 (length password)); [| lia].
    destruct (has_upper password), (has_digit password); simpl;
      repeat split; try (intros; discriminate); try tauto;
      try (intros (_ & ? & ?); discriminate);
      try (left; reflexivity); try (right; by eexists).
Qed.

End LoginFacts.

Section AnswerFormFacts.
Import JS AnswerForm.

Lemma role_cases role :
  role = "player" ∨ role = "facilitator" →
  (String.eqb role "player" = true ∧ String.eqb role "facilitator" = false) ∨
  (String.eqb role "player" = false ∧ String.eqb role "facilitator" = true).
Proof. intros [-> | ->]; [left | right]; split; reflexivity. Qed.

(** X17: on the two routes of the game page (roles player and facilitator)
    a click on Submit Answer never calls a missing [onSubmit]; an answer is
    posted only from a player page whose team id is a non-zero number equal
    to the team id of the question, and only when the answer is not blank;
    what is posted is the chosen letter or the text as typed, untrimmed,
    under that team id. *)
Theorem answer_posted_only_by_active_team role teamId q f :
  role = "player" ∨ role = "facilitator" →
  click_submit role teamId q f ≠ Crash ∧
  (role = "facilitator" → click_submit role teamId q f = NothingHappens) ∧
  ∀ r, click_submit role teamId q f = Posted r →
       role = "player" ∧
       (∃ t, t ≠ 0 ∧ teamId = Int t ∧ team_id q = Int t ∧ req_team_id r = Int t) ∧
       submitted_answer r =
         (if String.eqb (question_type q) "MCQ" then selectedAnswer f else textAnswer f) ∧
       trim (submitted_answer r) ≠ [].
Proof.
  intros Hrole. apply role_cases in Hrole as [[Hp Hf] | [Hp Hf]].
  - assert (Hr : role = "player") by (by apply String.eqb_eq).
    unfold click_submit, handleSubmit, disabled, onSubmit_given, handleSubmitAnswer.
    rewrite Hp, Hf. simpl.
    destruct (own_turn teamId q) eqn:Hturn; simpl.
    + split; [| split].
      * destruct (is_empty _); [discriminate |]. destruct (truthy teamId); discriminate.
      * intros ->. discriminate Hp.
      * intros r. destruct (is_empty (trim _)) eqn:He; [discriminate |].
        destruct (truthy teamId) eqn:Ht; [| discriminate].
        intros [= <-]. simpl. split; [exact Hr |].
        destruct teamId as [| | t]; try discriminate Ht. simpl in Ht.
        apply negb_true_iff, Z.eqb_neq in Ht.
        unfold own_turn in Hturn.
        destruct (team_id q) as [| | t'] eqn:Hq; cbn [to_number number_eq] in Hturn;
          try discriminate.
        -- apply Z.eqb_eq in Hturn. lia.
        -- apply Z.eqb_eq in Hturn. subst t'.
           split; [by exists t |]. split; [reflexivity |].
           intros Hnil. by rewrite Hnil in He.
    + split; [discriminate |]. split; [intros ->; discriminate Hp |].
      intros r Hr'. discriminate Hr'.
  - assert (Hr : role = "facilitator") by (by apply String.eqb_eq).
    unfold click_submit, handleSubmit, disabled, onSubmit_given.
    rewrite Hp, Hf. simpl.
    split; [discriminate |]. split; [reflexivity |]. intros r Hr'. discriminate Hr'.
Qed.

Lemma answer_posted_only_by_active_team_witness :
  click_submit "player" (Int 7) (Question "MCQ" (Int 7)) (Form (lit "B") [] false)
  = Posted (AnswerRequest (Int 7) (lit "B")) ∧
  click_submit "player" Null (Question "MCQ" (Int 0)) (Form (lit "B") [] false)
  = ShownAsSubmittedButNotPosted ∧
  click_submit "player" (Int 7) (Question "MCQ" (Int 7)) (Form (lit "B") [] false) ≠ Crash.
Proof.
  split; [reflexivity |]. split; [reflexivity |].
  apply (answer_posted_only_by_active_team "player" (Int 7) (Question "MCQ" (Int 7))
           (Form (lit "B") [] false)).
  left; reflexivity.
Defined.

(** X18: the alert "Please provide an answer" cannot be reached through the
    Submit Answer button: whenever the button is enabled, the selected
    letter being none or one of A, B, C, D, a click passes the answer on or,
    on a disabled form, does nothing. *)
Theorem enabled_button_never_alerts isDisabled hasOnSubmit q f :
  submit_button_disabled q f = false →
  selectedAnswer f = [] ∨ selectedAnswer f ∈ option_letters →
  handleSubmit isDisabled hasOnSubmit q f ≠ AlertProvideAnswer.
Proof.
  unfold submit_button_disabled, handleSubmit. intros Hb Hsel.
  destruct isDisabled; [discriminate |].
  destruct (String.eqb (question_type q) "MCQ"); simpl in Hb.
  - rewrite orb_false_r in Hb.
    destruct Hsel as [Hsel | Hsel]; [by rewrite Hsel in Hb |].
    unfold option_letters in Hsel. rewrite !elem_of_cons, elem_of_nil in Hsel.
    destruct Hsel as [-> | [-> | [-> | [-> | []]]]]; simpl; destruct hasOnSubmit; discriminate.
  - rewrite Hb. destruct hasOnSubmit; discriminate.
Qed.

Lemma enabled_button_never_alerts_witness :
  handleSubmit false true (Question "Fill in the Blanks" (Int 7))
    (Form [] (lit " Paris ") false) = Passed (lit " Paris ") ∧
  handleSubmit false true (Question "Fill in the Blanks" (Int 7))
    (Form [] (lit " Paris ") false) ≠ AlertProvideAnswer.
Proof.
  split; [reflexivity |].
  apply enabled_button_never_alerts; [reflexivity | by left].
Defined.

End AnswerFormFacts.

Section RollButtonFacts.
Import JS JoinForm.

(** X19: when the turn of a team that joined is announced under the name its
    join request carried, the page of that team shows the Roll Your Dice
    button exactly if the name was typed without white space around it: the
    page compares the name as typed with the announced one. *)
Theorem roll_button_needs_unpadded_name toUpperCase roomCode teamName r :
  handleJoinGame toUpperCase roomCode teamName = Requested r →
  RollButton.shown "player" (Some (team_name r))
    (RollButton.page_team_name (stored_team_name teamName)) = true
  ↔ trim teamName = teamName.
Proof.
  unfold handleJoinGame.
  destruct (is_empty (trim roomCode)); [discriminate |].
  destruct (is_empty (trim teamName)) eqn:Hname; [discriminate |].
  destruct (_ || _); [discriminate |].
  intros [= <-].
  unfold RollButton.shown, RollButton.page_team_name, stored_team_name.
  cbn [team_name String.eqb Ascii.eqb Bool.eqb andb]. rewrite Hname.
  cbn [negb andb]. rewrite bool_decide_eq_true. split; congruence.
Qed.

Lemma roll_button_needs_unpadded_name_witness :
  ∃ r, handleJoinGame (λ s, s) (lit "ABC123") (lit " A") = Requested r ∧
       RollButton.shown "player" (Some (team_name r))
         (RollButton.page_team_name (stored_team_name (lit " A"))) ≠ true.
Proof.
  eexists. split; [reflexivity |]. intros H.
  pose proof (proj1 (roll_button_needs_unpadded_name
                       (λ s, s) (lit "ABC123") (lit " A") _ eq_refl) H) as H'.
  vm_compute in H'. discriminate H'.
Defined.

End RollButtonFacts.

Section QuestionFormFacts.
Import JS QuestionForm.

Lemma is_empty_nonblank (s : jstring) : is_empty s = false → s ≠ [].
Proof. by destruct s. Qed.

(** X20: a question reaches [onSave] only with its text as typed, of at
    least 5 code units and not blank, and with a time limit that is not a
    number at or below 0. A multiple-choice question then carries four
    options that are not blank, one of the letters A to D as its key and no
    model answer; any other question carries no options, no key, and the
    model answer as typed. *)
Theorem saved_question_well_formed f d :
  handleSubmit f = Saved d →
  question_text d = questionText f ∧
  (5 ≤ length (question_text d))%nat ∧ trim (question_text d) ≠ [] ∧
  time_limit d = timeLimit f ∧ (∀ z, time_limit d = Num z → 0 < z) ∧
  question_type d = questionType f ∧
  (question_type d = "MCQ" →
     (∀ o, o ∈ [option_a d; option_b d; option_c d; option_d d] →
           ∃ s, o = Some s ∧ trim s ≠ []) ∧
     (∃ k, k ∈ [lit "A"; lit "B"; lit "C"; lit "D"] ∧ correct_answer d = Some k) ∧
     model_answer d = None) ∧
  (question_type d ≠ "MCQ" →
     option_a d = None ∧ option_b d = None ∧ option_c d = None ∧ option_d d = None ∧
     correct_answer d = None ∧ model_answer d = Some (modelAnswer f)).
Proof.
  unfold handleSubmit.
  destruct (is_empty (trim (questionText f))) eqn:Ht; [discriminate |].
  destruct (Nat.ltb_spec (length (questionText f)) 5) as [| Hlen]; [discriminate |].
  cbn [orb].
  destruct (le (timeLimit f) (Num 0)) eqn:Hle; [discriminate |].
  assert (Htime : ∀ z, timeLimit f = Num z → 0 < z).
  { intros z Hz. rewrite Hz in Hle. simpl in Hle. lia. }
  apply is_empty_nonblank in Ht.
  destruct (String.eqb_spec (questionType f) "MCQ") as [Hq | Hq]; cbn [andb negb].
  - destruct (is_empty (trim (optionA f))) eqn:Ha; [discriminate |].
    destruct (is_empty (trim (optionB f))) eqn:Hb; [discriminate |].
    destruct (is_empty (trim (optionC f))) eqn:Hc; [discriminate |].
    destruct (is_empty (trim (optionD f))) eqn:Hd; [discriminate |].
    cbn [orb].
    destruct (is_empty (correctAnswer f)); [discriminate |].
    destruct (is_option_letter (correctAnswer f)) eqn:Hk; [| discriminate].
    cbn [orb negb]. intros [= <-].
    cbn [question_text question_type time_limit option_a option_b option_c
         option_d correct_answer model_answer].
    apply is_empty_nonblank in Ha, Hb, Hc, Hd.
    apply bool_decide_eq_true in Hk.
    split; [reflexivity |]. split; [exact Hlen |]. split; [exact Ht |].
    split; [reflexivity |]. split; [exact Htime |]. split; [reflexivity |].
    split; [| congruence].
    intros _. split; [| split; [eauto | reflexivity]].
    intros o Ho. rewrite !elem_of_cons, elem_of_nil in Ho.
    destruct Ho as [-> | [-> | [-> | [-> | []]]]]; eauto.
  - intros [= <-].
    cbn [question_text question_type time_limit option_a option_b option_c
         option_d correct_answer model_answer].
    split; [reflexivity |]. split; [exact Hlen |]. split; [exact Ht |].
    split; [reflexivity |]. split; [exact Htime |]. split; [reflexivity |].
    split; [congruence |]. intros _. repeat split.
Qed.

Lemma saved_question_well_formed_witness :
  ∃ d, handleSubmit (Fields (lit "2 + 2?") "MCQ" "Easy" NaN (lit "3") (lit "4")
                       (lit "5") (lit "6") (lit "B") []) = Saved d ∧
       time_limit d = NaN ∧ correct_answer d = Some (lit "B") ∧ model_answer d = None.
Proof.
  eexists. split; [reflexivity |].
  destruct (saved_question_well_formed
              (Fields (lit "2 + 2?") "MCQ" "Easy" NaN (lit "3") (lit "4")
                 (lit "5") (lit "6") (lit "B") []) _ eq_refl)
    as (_ & _ & _ & Ht & _ & _ & Hm & _).
  destruct (Hm eq_refl) as (_ & _ & Hmodel).
  split; [exact Ht |]. split; [reflexivity | exact Hmodel].
Defined.

End QuestionFormFacts.

Section QuizFormFacts.
Import JS QuizForm.

Lemma count_of_cons d q questions :
  count_of d (q :: questions) =
  (if String.eqb (q_difficulty q) d then 1 else 0) + count_of d questions.
Proof.
  unfold count_of. simpl. destruct (String.eqb _ _); simpl length; lia.
Qed.

Lemma count_of_tiers questions :
  count_of "Easy" questions + count_of "Medium" questions +
  count_of "Hard" questions + count_of "Insane" questions
  ≤ Z.of_nat (length questions).
Proof.
  induction questions as [| q questions IH]; [unfold count_of; simpl; lia |].
  rewrite !count_of_cons. simpl length.
  destruct (String.eqb_spec (q_difficulty q) "Easy") as [Hz | _];
    destruct (String.eqb_spec (q_difficulty q) "Medium") as [He | _];
    destruct (String.eqb_spec (q_difficulty q) "Hard") as [Hh | _];
    destruct (String.eqb_spec (q_difficulty q) "Insane") as [Hi | _];
    try discriminate; try congruence; lia.
Qed.

(** X21: when every number field of the configuration holds a number, a
    configuration that is accepted for saving and a question list that is
    accepted as complete together give at least as many questions of each
    tier as configured, and at least teams times rounds questions in all. *)
Theorem complete_quiz_has_enough_questions c questions nT nR e m h i :
  numTeams c = Num nT → numRounds c = Num nR →
  easyCount c = Num e → mediumCount c = Num m →
  hardCount c = Num h → insaneCount c = Num i →
  handleSaveConfiguration c = SaveRequested c →
  handleCompleteQuiz c questions = Complete →
  e ≤ count_of "Easy" questions ∧ m ≤ count_of "Medium" questions ∧
  h ≤ count_of "Hard" questions ∧ i ≤ count_of "Insane" questions ∧
  nT * nR ≤ Z.of_nat (length questions).
Proof.
  intros HnT HnR He Hm Hh Hi.
  unfold handleSaveConfiguration, handleCompleteQuiz.
  rewrite HnT, HnR, He, Hm, Hh, Hi.
  destruct (is_empty (trim (quizName c))); [discriminate |].
  destruct (_ || _); [discriminate |].
  cbn [add mul lt].
  destruct (Z.ltb_spec (e + m + h + i) (nT * nR)) as [| Htot]; [discriminate |].
  intros _.
  destruct (Z.ltb_spec (count_of "Easy" questions) e) as [| H1]; [discriminate |].
  destruct (Z.ltb_spec (count_of "Medium" questions) m) as [| H2]; [discriminate |].
  destruct (Z.ltb_spec (count_of "Hard" questions) h) as [| H3]; [discriminate |].
  destruct (Z.ltb_spec (count_of "Insane" questions) i) as [| H4]; [discriminate |].
  intros _. pose proof (count_of_tiers questions). lia.
Qed.

Lemma complete_quiz_has_enough_questions_witness :
  let qs := [QuizQuestion 1 "Easy"; QuizQuestion 2 "Hard"] in
  1 ≤ count_of "Easy" qs ∧ 1 * 2 ≤ Z.of_nat (length qs).
Proof.
  intros qs.
  destruct (complete_quiz_has_enough_questions
              (Config (lit "Quiz") (Num 1) (Num 2) (Num 1) (Num 0) (Num 1) (Num 0))
              qs 1 2 1 0 1 0 eq_refl eq_refl eq_refl eq_refl eq_refl eq_refl
              eq_refl eq_refl) as (H1 & _ & _ & _ & H5).
  split; [exact H1 | exact H5].
Defined.

(** X22: a named quiz one of whose four tier counts is not a number (the
    field was emptied) passes the check of the total against teams times
    rounds whatever these are, and the tier whose count is not a number is
    never the one reported missing when the quiz is completed. *)
Theorem blank_count_disables_checks c questions :
  is_empty (trim (quizName c)) = false →
  (3 ≤ length (quizName c) ≤ 100)%nat →
  easyCount c = NaN ∨ mediumCount c = NaN ∨ hardCount c = NaN ∨ insaneCount c = NaN →
  handleSaveConfiguration c = SaveRequested c ∧
  (easyCount c = NaN → ∀ w n, handleCompleteQuiz c questions ≠ Need "easy" w n) ∧
  (mediumCount c = NaN → ∀ w n, handleCompleteQuiz c questions ≠ Need "medium" w n) ∧
  (hardCount c = NaN → ∀ w n, handleCompleteQuiz c questions ≠ Need "hard" w n) ∧
  (insaneCount c = NaN → ∀ w n, handleCompleteQuiz c questions ≠ Need "insane" w n).
Proof.
  intros Hname [Hlo Hhi] Hnan.
  unfold handleSaveConfiguration, handleCompleteQuiz. rewrite Hname.
  destruct (Nat.ltb_spec (length (quizName c)) 3) as [| _]; [lia |].
  destruct (Nat.ltb_spec 100 (length (quizName c))) as [| _]; [lia |].
  cbn [orb].
  split.
  - assert (Hsum : add (add (add (easyCount c) (mediumCount c)) (hardCount c))
                     (insaneCount c) = NaN).
    { destruct Hnan as [-> | [-> | [-> | ->]]]; simpl;
        repeat (destruct (_ c)); reflexivity. }
    rewrite Hsum. reflexivity.
  - repeat split; intros Hn w n; rewrite ?Hn; cbn [lt];
      repeat case_match; congruence.
Qed.

Lemma blank_count_disables_checks_witness :
  let c := Config (lit "Quiz") (Num 5) (Num 10) NaN (Num 0) (Num 0) (Num 0) in
  handleSaveConfiguration c = SaveRequested c ∧ handleCompleteQuiz c [] = Complete.
Proof.
  intros c.
  destruct (blank_count_disables_checks c [] eq_refl) as (H & _).
  - simpl. lia.
  - left. reflexivity.
  - split; [exact H | reflexivity].
Defined.

End QuizFormFacts.

Section WebSocketUrlFacts.
Import Stdlib.Strings.Ascii WebSocketUrl.

Lemma append_cons c s t : String c s +:+ t = String c (s +:+ t).
Proof. reflexivity. Qed.

Lemma append_nil t : "" +:+ t = t.
Proof. reflexivity. Qed.

Ltac norm_append := rewrite ?append_cons, ?append_nil.

Lemma replace_step p r c s :
  String.prefix p (String c s) = false →
  replace p r (String c s) = String c (replace p r s).
Proof. simpl. by intros ->. Qed.

Lemma replace_here p r s :
  String.prefix p s = true → replace p r s = r +:+ skip (String.length p) s.
Proof. destruct s; simpl; by intros ->. Qed.

Lemma prefix_split p s : String.prefix p s = true → ∃ t, s = p +:+ t.
Proof.
  revert s. induction p as [| a p IH]; intros s; [by exists s |].
  destruct s as [| b s]; simpl; [discriminate |].
  destruct (ascii_dec a b) as [-> |]; [| discriminate].
  intros H. destruct (IH _ H) as [t ->]. by exists t.
Qed.

Lemma prefix_head_ne c d p s :
  c ≠ d → String.prefix (String c p) (String d s) = false.
Proof. intros H. cbn [String.prefix]. by destruct (ascii_dec c d). Qed.

Lemma prefix_head_eq c p s :
  String.prefix (String c p) (String c s) = String.prefix p s.
Proof. cbn [String.prefix]. by destruct (ascii_dec c c). Qed.

Lemma prefix_nil s : String.prefix "" s = true.
Proof. by destruct s. Qed.

Lemma slashes_app a b : slashes (a +:+ b) = (slashes a + slashes b)%nat.
Proof. induction a as [| c a IH]; simpl; [done |]. rewrite IH. lia. Qed.

Lemma slash_free_slashes s : slash_free s = true → slashes s = 0%nat.
Proof.
  induction s as [| c s IH]; simpl; [done |].
  intros [Hc Hs]%andb_true_iff. apply negb_true_iff in Hc. rewrite Hc, IH; done.
Qed.

Lemma replace_absent p r s : (slashes s < slashes p)%nat → replace p r s = s.
Proof.
  induction s as [| c s IH]; intros Hlt.
  - destruct (String.prefix p "") eqn:Hp.
    + destruct (prefix_split _ _ Hp) as [t Ht].
      apply (f_equal slashes) in Ht. rewrite slashes_app in Ht. simpl in Ht. lia.
    + change (replace p r "")
        with (if String.prefix p "" then r +:+ skip (String.length p) "" else "").
      by rewrite Hp.
  - destruct (String.prefix p (String c s)) eqn:Hp.
    + destruct (prefix_split _ _ Hp) as [t Ht].
      apply (f_equal slashes) in Ht. rewrite slashes_app in Ht. lia.
    + rewrite replace_step by done. f_equal. apply IH.
      simpl in Hlt. lia.
Qed.

Lemma slash_free_head c s : slash_free (String c s) = true → c ≠ "/"%char.
Proof.
  simpl. intros [Hc _]%andb_true_iff. apply negb_true_iff in Hc.
  intros ->. by rewrite Ascii.eqb_refl in Hc.
Qed.

Lemma replace_api_suffix host :
  slash_free host = true → replace "/api" "" (host +:+ "/api") = host.
Proof.
  induction host as [| c host IH]; intros Hfree; [reflexivity |].
  pose proof (slash_free_head _ _ Hfree) as Hc.
  change (String c host +:+ "/api") with (String c (host +:+ "/api")).
  rewrite replace_step by (apply prefix_head_ne; congruence).
  f_equal. apply IH. simpl in Hfree. by apply andb_true_iff in Hfree as [_ ?].
Qed.

Ltac prefix_cases :=
  repeat match goal with
    | |- String.prefix (String ?x _) (String ?y _) = false =>
        is_var y; destruct (ascii_dec x y) as [? | ?];
        [subst y; rewrite prefix_head_eq | by apply prefix_head_ne]
    end.

Lemma api_not_prefix host :
  slash_free host = true → String.prefix "api" host = false →
  String.prefix "/api" (String "/" (host +:+ "/api")) = false.
Proof.
  intros Hfree Hapi. rewrite prefix_head_eq.
  destruct host as [| a [| b [| c host]]]; norm_append; prefix_cases;
    try reflexivity.
  rewrite !prefix_head_eq, prefix_nil in Hapi. discriminate Hapi.
Qed.

Ltac replace_steps p := repeat (rewrite (replace_step p) by reflexivity).

(** X23: with no socket address configured, an API address made of
    [https://] or [http://], a host and the path [/api], where the host holds
    no slash and does not begin with [api], gives the socket address
    [wss://] or [ws://] followed by the host. *)
Theorem socket_url_from_api_url wsUrl host :
  wsUrl = None ∨ wsUrl = Some "" →
  slash_free host = true → String.prefix "api" host = false →
  getWebSocketUrl wsUrl (Some ("https://" +:+ host +:+ "/api")) = "wss://" +:+ host ∧
  getWebSocketUrl wsUrl (Some ("http://" +:+ host +:+ "/api")) = "ws://" +:+ host.
Proof.
  intros Hws Hfree Hapi.
  pose proof (api_not_prefix host Hfree Hapi) as Hslash.
  pose proof (slash_free_slashes host Hfree) as Hzero.
  assert (Hunset : ∀ a, getWebSocketUrl wsUrl (Some a) = getWebSocketUrl None (Some a)).
  { by destruct Hws as [-> | ->]. }
  rewrite !Hunset. split; cbn [getWebSocketUrl]; norm_append; cbn [getWebSocketUrl].
  - replace_steps "/api". rewrite (replace_step "/api") by exact Hslash.
    rewrite replace_api_suffix by done.
    rewrite (replace_here "https://") by (rewrite !prefix_head_eq; apply prefix_nil).
    cbn [String.length skip]; norm_append.
    replace_steps "http://". rewrite replace_absent; [done |]. rewrite Hzero. simpl. lia.
  - replace_steps "/api". rewrite (replace_step "/api") by exact Hslash.
    rewrite replace_api_suffix by done.
    replace_steps "https://".
    rewrite (replace_absent "https://"); [| rewrite Hzero; simpl; lia].
    rewrite (replace_here "http://") by (rewrite !prefix_head_eq; apply prefix_nil).
    reflexivity.
Qed.

Lemma socket_url_from_api_url_witness :
  getWebSocketUrl None (Some "http://localhost:8000/api") = "ws://localhost:8000".
Proof.
  exact (proj2 (socket_url_from_api_url None "localhost:8000"
                  (or_introl eq_refl) eq_refl eq_refl)).
Defined.

(** X24: with no socket address configured, an API address whose host begins
    with [api] and goes on with something that holds no slash loses that
    [/api] instead of its path: what comes back is the API address without
    it, which keeps its [http] scheme and is no socket address. *)
Theorem socket_url_broken_for_api_host wsUrl rest :
  wsUrl = None ∨ wsUrl = Some "" →
  slash_free rest = true → rest ≠ "" →
  getWebSocketUrl wsUrl (Some ("https://api" +:+ rest +:+ "/api"))
    = "https:/" +:+ rest +:+ "/api" ∧
  getWebSocketUrl wsUrl (Some ("http://api" +:+ rest +:+ "/api"))
    = "http:/" +:+ rest +:+ "/api".
Proof.
  intros Hws Hfree Hrest.
  destruct rest as [| c rest]; [done |].
  pose proof (slash_free_head _ _ Hfree) as Hc.
  pose proof (slash_free_slashes _ Hfree) as Hzero.
  assert (Hone : slashes (String c rest +:+ "/api") = 1%nat).
  { rewrite slashes_app, Hzero. reflexivity. }
  assert (Hunset : ∀ a, getWebSocketUrl wsUrl (Some a) = getWebSocketUrl None (Some a)).
  { by destruct Hws as [-> | ->]. }
  rewrite !Hunset. split; cbn [getWebSocketUrl]; norm_append; cbn [getWebSocketUrl].
  - replace_steps "/api".
    rewrite (replace_here "/api") by (rewrite !prefix_head_eq; apply prefix_nil).
    cbn [String.length skip]; norm_append.
    rewrite (replace_step "https://")
      by (rewrite !prefix_head_eq; apply prefix_head_ne; congruence).
    replace_steps "https://".
    rewrite (replace_absent "https://") by (rewrite <- ?append_cons, Hone; simpl; lia).
    replace_steps "http://".
    rewrite (replace_absent "http://") by (rewrite <- ?append_cons, Hone; simpl; lia).
    reflexivity.
  - replace_steps "/api".
    rewrite (replace_here "/api") by (rewrite !prefix_head_eq; apply prefix_nil).
    cbn [String.length skip]; norm_append.
    replace_steps "https://".
    rewrite (replace_absent "https://") by (rewrite <- ?append_cons, Hone; simpl; lia).
    rewrite (replace_step "http://")
      by (rewrite !prefix_head_eq; apply prefix_head_ne; congruence).
    replace_steps "http://".
    rewrite (replace_absent "http://") by (rewrite <- ?append_cons, Hone; simpl; lia).
    reflexivity.
Qed.

Lemma socket_url_broken_for_api_host_witness :
  getWebSocketUrl None (Some "https://api.example.com/api") = "https:/.example.com/api".
Proof.
  refine (proj1 (socket_url_broken_for_api_host None ".example.com"
                   (or_introl eq_refl) eq_refl _)).
  discriminate.
Defined.

End WebSocketUrlFacts.


Section DashboardFacts.
Import JS QuizForm Dashboard.

(** X25: a quiz that holds the numbers of a configuration accepted for
    saving is listed with the Ready badge, whatever questions have been
    entered for it: the badge reads the configured counts only. *)
Theorem saved_configuration_is_ready c q :
  handleSaveConfiguration c = SaveRequested c → holds c q → quiz_badge q = Ready.
Proof.
  intros Hsave (HnT & HnR & He & Hm & Hh & Hi).
  unfold handleSaveConfiguration in Hsave.
  rewrite HnT, HnR, He, Hm, Hh, Hi in Hsave.
  destruct (is_empty (trim (quizName c))); [discriminate |].
  destruct (_ || _); [discriminate |].
  cbn [add mul lt] in Hsave. unfold quiz_badge.
  destruct (Z.ltb _ _); [discriminate | reflexivity].
Qed.

Lemma saved_configuration_is_ready_witness :
  quiz_badge (Quiz 3 4 4 4 4 4) = Ready ∧
  handleCompleteQuiz
    (Config (lit "Quiz") (Num 3) (Num 4) (Num 4) (Num 4) (Num 4) (Num 4)) []
  = Need "easy" (Num 4) 0.
Proof.
  split; [| reflexivity].
  apply (saved_configuration_is_ready
           (Config (lit "Quiz") (Num 3) (Num 4) (Num 4) (Num 4) (Num 4) (Num 4))).
  - reflexivity.
  - repeat split.
Defined.

End DashboardFacts.
